(** * PyDuko: a shallow embedding of [main.py] (classes [Board] and [Cell])

    The Python program keeps a 9x9 Sudoku grid in a dictionary from
    coordinate pairs to [Cell] objects and offers a propagation solver
    ([Board.solve]) and a randomized backtracking solver
    ([Board.solve_sudoku]).

    Modelling decisions.
    - [self.board : dict[tuple[int, int], Cell]] is a [gmap (nat * nat) Cell].
      The constructor inserts the 81 keys in row-major order and [clone] and
      [copy_from] rebuild the dictionary in the order of their source, so
      the insertion order of every board is row-major: [values] reads the
      cells in that order.  Index reads [self.board[(x, y)]] use the total
      lookup; on a board that lacks the key Python raises [KeyError], which
      is why the statements below are about [well_formed] boards.
    - A cell's back reference [cell.board] always is the board that owns the
      cell, so [get_possible_values] takes the board as an argument.
    - Mutation is explicit state passing; a method that can raise returns the
      board it leaves behind together with a [result].
    - Python [str] is modelled for code points below 256: a character is an
      [ascii], read as its code point.
    - [print] and [print_board] only write to the console and are left out. *)

From stdpp Require Import gmap strings list fin_maps pretty.
From Stdlib Require Import Ascii String ZifyNat.
From stdpp Require Import ssreflect.

Open Scope string_scope.
Open Scope nat_scope.

(** ** Exceptions *)

(** [Board.BoardException] carries its message; [ValueError] is the builtin
    raised by [int(...)], recorded with the offending literal, and [KeyError]
    the builtin raised by [set.pop] on an empty set. *)
Inductive exn : Type :=
  | BoardException (msg : string)
  | ValueError (literal : string)
  | KeyError (msg : string).

Inductive result (A : Type) : Type :=
  | Ok (a : A)
  | Raise (e : exn).
Arguments Ok {A} a.
Arguments Raise {A} e.

(** ** class Cell *)

Record Cell : Type := mkCell {
  cell_x : nat;
  cell_y : nat;
  value : option Z;
  possibles : gset Z
}.

(** [set(range(1, 10))] *)
Definition full_possibles : gset Z := list_to_set (seqZ 1 9).

(** [Cell.__init__] *)
Definition Cell_init (x y : nat) (v : option Z) : Cell :=
  {| cell_x := x; cell_y := y; value := v;
     possibles := match v with Some _ => ∅ | None => full_possibles end |}.

#[global] Instance Cell_inhabited : Inhabited Cell := populate (Cell_init 0 0 None).

(** Attribute assignments [cell.value = v] and [cell.possibles = p]. *)
Definition set_value (v : option Z) (c : Cell) : Cell :=
  {| cell_x := cell_x c; cell_y := cell_y c; value := v; possibles := possibles c |}.

Definition set_possibles (p : gset Z) (c : Cell) : Cell :=
  {| cell_x := cell_x c; cell_y := cell_y c; value := value c; possibles := p |}.

(** [Cell.clone] *)
Definition Cell_clone (c : Cell) : Cell := Cell_init (cell_x c) (cell_y c) (value c).

(** [Cell.clear] *)
Definition Cell_clear (c : Cell) : Cell := set_possibles full_possibles (set_value None c).

(** [Cell.get_chunk_number] *)
Definition get_chunk_number (c : Cell) : nat := (cell_y c / 3) * 3 + cell_x c / 3.

(** ** class Board *)

Abbreviation Board := (gmap (nat * nat) Cell).

(** The coordinates in the order of [for y in range(9): for x in range(9)]. *)
Definition iter_coords : list (nat * nat) :=
  flat_map (fun y => map (fun x => (x, y)) (seq 0 9)) (seq 0 9).

(** [Board.__init__] without a state. *)
Definition Board_new : Board :=
  foldl (fun b '(x, y) => <[(x, y) := Cell_init x y None]> b) ∅ iter_coords.

(** Every coordinate of the grid holds a cell that knows its own position,
    and the dictionary has no other key. *)
Definition well_formed (b : Board) : bool :=
  forallb (fun '(x, y) =>
             match b !! (x, y) with
             | Some c => (cell_x c =? x) && (cell_y c =? y)
             | None => false
             end) iter_coords
  && (size b =? 81).

(** [Board.iter_cells] *)
Definition iter_cells (b : Board) : list Cell :=
  map (fun p => b !!! p) iter_coords.

(** [self.board.values()]: dictionary order is insertion order. *)
Definition values (b : Board) : list Cell := iter_cells b.

(** [Board.clone] *)
Definition clone (b : Board) : Board := Cell_clone <$> b.

(** [Board.copy_from] *)
Definition copy_from (self other : Board) : Board := Cell_clone <$> other.

(** [Board.set_cell] *)
Definition set_cell (b : Board) (x y : nat) (v : Z) : Board :=
  alter (set_value (Some v)) (x, y) b.

(** [Board.get_cell] *)
Definition get_cell (b : Board) (x y : nat) : option Z := value (b !!! (x, y)).

(** [Board.clear_board] *)
Definition clear_board (b : Board) : Board :=
  foldl (fun b p => alter (fun c => set_value None (set_possibles ∅ c)) p b)
        b iter_coords.

(** [Board.get_column] *)
Definition get_column (b : Board) (x : nat) : list Z :=
  omap (fun y => value (b !!! (x, y))) (seq 0 9).

(** [Board.get_row] *)
Definition get_row (b : Board) (y : nat) : list Z :=
  omap (fun x => value (b !!! (x, y))) (seq 0 9).

(** The coordinates visited by the two loops of [Board.get_chunk]. *)
Definition chunk_coords (i : nat) : list (nat * nat) :=
  let x_start := (i mod 3) * 3 in
  let y_start := (i / 3) * 3 in
  flat_map (fun y => map (fun x => (x, y)) (seq x_start 3)) (seq y_start 3).

(** [Board.get_chunk] *)
Definition get_chunk (b : Board) (i : nat) : list Z :=
  omap (fun p => value (b !!! p)) (chunk_coords i).

(** [len(set(l)) != len(l)] *)
Definition has_duplicates (l : list Z) : bool :=
  negb (size (list_to_set l : gset Z) =? List.length l).

(** [Board.is_valid] *)
Definition is_valid (b : Board) : bool :=
  forallb (fun i =>
             negb (has_duplicates (get_row b i))
             && negb (has_duplicates (get_column b i))
             && negb (has_duplicates (get_chunk b i)))
          (seq 0 9).

(** [Board.is_solved] *)
Definition is_solved (b : Board) : result bool :=
  if negb (is_valid b) then Raise (BoardException "The board is not valid.")
  else Ok (forallb (fun cell => bool_decide (value cell ≠ None)) (values b)).

(** [Board.would_be_valid] *)
Definition would_be_valid (b : Board) (x y : nat) (v : Z) : bool :=
  is_valid (set_cell (clone b) x y v).

(** [Board.get_unsolved_cells] and [Board.get_solved_cells] *)
Definition get_unsolved_cells (b : Board) : list Cell :=
  filter (fun cell => value cell = None) (values b).

Definition get_solved_cells (b : Board) : list Cell :=
  filter (fun cell => value cell ≠ None) (values b).

(** [Board.get_unsolved_count] *)
Definition get_unsolved_count (b : Board) : nat := List.length (get_unsolved_cells b).

(** *** Strings *)

(** [str.isdigit] on code points below 256: the ten decimal digits and the
    superscripts two, three and one (U+00B2, U+00B3, U+00B9). *)
Definition isdigit (ch : ascii) : bool :=
  let n := nat_of_ascii ch in
  ((48 <=? n) && (n <=? 57)) || (n =? 178) || (n =? 179) || (n =? 185).

(** [int(ch)] for a one-character string: only a decimal digit is a valid
    literal. *)
Definition int (ch : ascii) : result Z :=
  let n := nat_of_ascii ch in
  if (48 <=? n) && (n <=? 57) then Ok (Z.of_nat (n - 48))
  else Raise (ValueError (String ch "")).

(** [enumerate(board_string)] *)
Definition enumerate (s : string) : list (nat * ascii) :=
  imap (fun i ch => (i, ch)) (list_ascii_of_string s).

(** The loop of [Board.load_from_string]. *)
Fixpoint load_loop (b : Board) (l : list (nat * ascii)) : Board * result unit :=
  match l with
  | [] => (b, Ok tt)
  | (i, ch) :: rest =>
      let x := i mod 9 in
      let y := i / 9 in
      if isdigit ch then
        match int ch with
        | Ok n => load_loop (alter (set_value (Some n)) (x, y) b) rest
        | Raise e => (b, Raise e)
        end
      else load_loop (alter (set_value None) (x, y) b) rest
  end.

(** [Board.load_from_string] *)
Definition load_from_string (b : Board) (board_string : string) : Board * result unit :=
  if bool_decide (String.length board_string ≠ 81)
  then (b, Raise (BoardException "Invalid board string length"))
  else load_loop (clear_board b) (enumerate board_string).

(** [str(cell.value) if cell.value is not None else "."] *)
Definition cell_str (cell : Cell) : string :=
  match value cell with
  | Some v => pretty v
  | None => "."
  end.

(** [Board.save_to_string] *)
Definition save_to_string (b : Board) : string :=
  foldl (fun retval cell => retval +:+ cell_str cell) "" (values b).

(** [Board(state)] *)
Definition Board_init (state : option string) : result Board :=
  match state with
  | None => Ok Board_new
  | Some s =>
      match load_from_string Board_new s with
      | (b, Ok _) => Ok b
      | (_, Raise e) => Raise e
      end
  end.

(** *** Propagation *)

(** [Cell.get_possible_values], for the cell that the board holds at [p]. *)
Definition get_possible_values (b : Board) (p : nat * nat) : Board * gset Z :=
  let self := b !!! p in
  match value self with
  | Some _ => (alter (set_possibles ∅) p b, ∅)
  | None =>
      let row := get_row b (cell_y self) in
      let col := get_column b (cell_x self) in
      let chunk := get_chunk b (get_chunk_number self) in
      let not_possibles : gset Z :=
        list_to_set row ∪ list_to_set col ∪ list_to_set chunk in
      let poss := full_possibles ∖ not_possibles in
      (alter (set_possibles poss) p b, poss)
  end.

(** [set.pop]: removes and returns an element of the set. *)
Definition pop (s : gset Z) : result (Z * gset Z) :=
  match elements s with
  | v :: _ => Ok (v, s ∖ {[v]})
  | [] => Raise (KeyError "pop from an empty set")
  end.

Definition no_possible_values (cell : Cell) : string :=
  "Cell(" +:+ pretty (cell_x cell) +:+ ", " +:+ pretty (cell_y cell)
  +:+ ") has no possible values!".

(** The body of the [for cell in self.iter_cells()] loop of [Board.solve],
    for the cell held at [p]. *)
Definition solve_cell (b : Board) (p : nat * nat) : Board * result unit :=
  let after_cell : Board * result unit :=
    match value (b !!! p) with
    | None =>
        let b1 := (get_possible_values b p).1 in
        let cell := b1 !!! p in
        if size (possibles cell) =? 0
        then (b1, Raise (BoardException (no_possible_values cell)))
        else if size (possibles cell) =? 1
        then match pop (possibles cell) with
             | Ok (v, rest) =>
                 (alter (set_value (Some v)) p (alter (set_possibles rest) p b1), Ok tt)
             | Raise e => (b1, Raise e)
             end
        else (b1, Ok tt)
    | Some _ => (b, Ok tt)
    end in
  match after_cell with
  | (b2, Ok _) =>
      if negb (is_valid b2) then (b2, Raise (BoardException "Board is not valid!"))
      else (b2, Ok tt)
  | (b2, Raise e) => (b2, Raise e)
  end.

(** One run of the [for] loop over the cells in [ps]. *)
Fixpoint solve_pass (b : Board) (ps : list (nat * nat)) : Board * result unit :=
  match ps with
  | [] => (b, Ok tt)
  | p :: rest =>
      match solve_cell b p with
      | (b', Ok _) => solve_pass b' rest
      | (b', Raise e) => (b', Raise e)
      end
  end.

(** [Board.solve]: the [while True] loop, run for at most [fuel] passes.
    [None] means that the loop is still running when the fuel is used up;
    [Ok n] is a return after [n] passes (the number that is printed). *)
Fixpoint solve (fuel : nat) (iterations : nat) (b : Board) : option (Board * result nat) :=
  match fuel with
  | 0 => None
  | S fuel' =>
      match solve_pass b iter_coords with
      | (b', Raise e) => Some (b', Raise e)
      | (b', Ok _) =>
          let unsolved_count := get_unsolved_count b' in
          if unsolved_count =? 0 then Some (b', Ok iterations)
          else solve fuel' (iterations + 1) b'
      end
  end.

(** *** Randomized backtracking *)

Section Backtracking.

(** [random.shuffle]: the generator state is threaded through the search;
    a shuffle returns the reordered list and the next state. *)
Context {rng : Type}.
Variable shuffle : rng → list Z → list Z * rng.

(** The [for num in nums] loop of [Board.solve_sudoku] for the unsolved
    [cell]; [recurse] is the recursive call [self.solve_sudoku()]. *)
Fixpoint try_nums (recurse : rng → Board → option (rng * Board * bool))
    (cell : Cell) (nums : list Z) (g : rng) (b : Board)
    : option (rng * Board * bool) :=
  match nums with
  | [] => Some (g, b, false)
  | num :: rest =>
      if would_be_valid b (cell_x cell) (cell_y cell) num then
        let b1 := alter (set_value (Some num)) (cell_x cell, cell_y cell) b in
        match recurse g b1 with
        | None => None
        | Some (g', b', true) => Some (g', b', true)
        | Some (g', b', false) =>
            (* Backtrack *)
            try_nums recurse cell rest g'
                     (alter (set_value None) (cell_x cell, cell_y cell) b')
        end
      else try_nums recurse cell rest g b
  end.

(** [Board.solve_sudoku], with the recursion depth bounded by [fuel];
    [None] means that the bound was reached. *)
Fixpoint solve_sudoku (fuel : nat) (g : rng) (b : Board)
    : option (rng * Board * bool) :=
  match fuel with
  | 0 => None
  | S fuel' =>
      match List.find (fun cell => bool_decide (value cell = None)) (iter_cells b) with
      | Some cell =>
          let '(nums, g1) := shuffle g [1; 2; 3; 4; 5; 6; 7; 8; 9]%Z in
          try_nums (solve_sudoku fuel') cell nums g1 b
      | None => Some (g, b, true)
      end
  end.

End Backtracking.

(** ** Notions used by the statements *)

(** Two boards that agree on every value. *)
Definition same_values (b b' : Board) : Prop :=
  ∀ p, value (b !!! p) = value (b' !!! p).

(** Two different entries of [l] carry the same value. *)
Definition repeated_in {A : Type} (f : A → option Z) (l : list A) : Prop :=
  ∃ a a' v, a ∈ l ∧ a' ∈ l ∧ a ≠ a' ∧ f a = Some v ∧ f a' = Some v.

(** The cells of row [i], of column [i] and of the 3x3 block [i]; blocks are
    numbered as [Cell.get_chunk_number] numbers them. *)
Definition in_row (i : nat) (p : nat * nat) : Prop := p.1 < 9 ∧ p.2 = i.
Definition in_column (i : nat) (p : nat * nat) : Prop := p.1 = i ∧ p.2 < 9.
Definition in_block (i : nat) (p : nat * nat) : Prop :=
  p.1 < 9 ∧ p.2 < 9 ∧ (p.2 / 3) * 3 + p.1 / 3 = i.

(** A group of cells holds the same assigned value at two distinct cells. *)
Definition repeated_value (b : Board) (group : nat * nat → Prop) : Prop :=
  ∃ p q v, group p ∧ group q ∧ p ≠ q
           ∧ value (b !!! p) = Some v ∧ value (b !!! q) = Some v.

Definition conflict (b : Board) : Prop :=
  ∃ i, i < 9 ∧ (repeated_value b (in_row i)
                ∨ repeated_value b (in_column i)
                ∨ repeated_value b (in_block i)).

(** [b'] keeps every assignment that [b] has on the grid. *)
Definition extends (b b' : Board) : Prop :=
  ∀ x y v, x < 9 → y < 9 →
           value (b !!! (x, y)) = Some v → value (b' !!! (x, y)) = Some v.

(** Every cell of the grid is assigned. *)
Definition complete (b : Board) : Prop :=
  ∀ x y, x < 9 → y < 9 → value (b !!! (x, y)) ≠ None.

Definition digits : list Z := [1; 2; 3; 4; 5; 6; 7; 8; 9]%Z.

(** [b] can be completed to a valid grid with numbers that every shuffle
    of the digits hands out. *)
Definition solvable {rng : Type} (shuffle : rng → list Z → list Z * rng)
    (b : Board) : Prop :=
  ∃ s : Board, complete s ∧ is_valid s = true ∧ extends b s
               ∧ ∀ g x y v, x < 9 → y < 9 → value (s !!! (x, y)) = Some v →
                            v ∈ (shuffle g digits).1.

(** What a finished search started on [b] leaves behind; [allowed] holds of
    the numbers that the search may write. *)
Definition search_post {rng : Type} (allowed : Z → Prop) (b : Board)
    (res : rng * Board * bool) : Prop :=
  match res with
  | (_, b', true) =>
      well_formed b' = true ∧ complete b'
      ∧ (is_valid b = true → is_valid b' = true)
      ∧ extends b b'
      ∧ ∀ p v, value (b' !!! p) = Some v → value (b !!! p) = Some v ∨ allowed v
  | (_, b', false) => b' = b
  end.

(** A run of the search on [b] finishes, leaves [search_post] behind and
    succeeds when [b] is solvable. *)
Definition search_spec {rng : Type} (shuffle : rng → list Z → list Z * rng)
    (allowed : Z → Prop) (run : rng → Board → option (rng * Board * bool))
    (g : rng) (b : Board) : Prop :=
  ∃ res, run g b = Some res ∧ search_post allowed b res
         ∧ (solvable shuffle b → res.2 = true).

(** Deduction is stuck on [b]: unsolved cells remain and each of them has
    two or more possible values. *)
Definition stuck (b : Board) : bool :=
  negb (get_unsolved_count b =? 0)
  && forallb (fun p => match value (b !!! p) with
                       | None => 2 <=? size (get_possible_values b p).2
                       | Some _ => true
                       end) iter_coords.

(** The ten decimal digits ['0'] to ['9']. *)
Definition ascii_digit (ch : ascii) : bool :=
  let n := nat_of_ascii ch in (48 <=? n) && (n <=? 57).

(** The characters on which [load_from_string] does not raise. *)
Definition parses (ch : ascii) : Prop := isdigit ch = true → ascii_digit ch = true.

(** The value that a character that parses leaves in its cell. *)
Definition parsed_value (ch : ascii) : option Z :=
  if isdigit ch then Some (Z.of_nat (nat_of_ascii ch - 48)) else None.

(** The character that [save_to_string] writes for a parsed character. *)
Definition saved_char (ch : ascii) : ascii := if isdigit ch then ch else "."%char.

(** The cell of the character at index [i]. *)
Definition key (i : nat) : nat * nat := (i mod 9, i / 9).

(** ** Example inputs *)

Definition puzzle : string :=
  ".1..7..5.8..1..7434...3.2..7...13..6..16.....368..4.79.873.596.93..2.8....589.4.7".

Definition id_shuffle (g : unit) (l : list Z) : list Z * unit := (l, g).

Definition puzzle_board : Board :=
  match Board_init (Some puzzle) with Ok b => b | Raise _ => ∅ end.

(** [n] times the character ['.']. *)
Definition dots (n : nat) : string := string_of_list_ascii (replicate n "."%char).

(** The 81-character grid whose first row starts with two ['1']. *)
Definition two_ones : string := "11" +:+ dots 79.

(** The string of the scenario: ["11"] followed by 87 dots, 89 characters. *)
Definition two_ones_89 : string := "11" +:+ dots 87.

(** U+00B2 SUPERSCRIPT TWO followed by 80 dots, 81 characters. *)
Definition superscript_two : ascii := "178"%char.
Definition superscript_string : string := String superscript_two (dots 80).

Definition two_ones_board : Board := (load_from_string Board_new two_ones).1.

Definition zero_string : string := "0" +:+ dots 80.

(** U+00B2 SUPERSCRIPT TWO, then ['0'], then 79 dots, 81 characters. *)
Definition superscript_zero_string : string :=
  String superscript_two ("0" +:+ dots 79).

Definition solved_string : string :=
  "123456789456789123789123456214365897365897214897214365531642978642978531978531642".

Definition solved_grid : Board := (load_from_string Board_new solved_string).1.

Definition digit_at (b : Board) (p : nat * nat) : bool :=
  match value (b !!! p) with
  | Some v => bool_decide (v ∈ digits)
  | None => false
  end.

(** A valid grid without solution: the first row lacks only a 9, and the
    last column already holds one. *)
Definition dead_end : string := "12345678." +:+ "........9" +:+ dots 63.

Definition dead_end_board : Board := (load_from_string Board_new dead_end).1.

(** ** More of class Board *)

(** [Cell.__eq__] for two cells: the candidates take no part. *)
Definition Cell_eq (self other : Cell) : bool :=
  bool_decide (value self = value other)
  && (cell_x self =? cell_x other)
  && (cell_y self =? cell_y other).

(** [Board.__eq__] for two boards; [cell != other] is the negation of
    [Cell.__eq__], and the first cell that differs ends the loop. *)
Definition Board_eq (self other : Board) : bool :=
  forallb (fun cell => Cell_eq cell (other !!! (cell_x cell, cell_y cell)))
          (iter_cells self).

(** [Board.get_cell_str] *)
Definition get_cell_str (b : Board) (x y : nat) (blank : string) : string :=
  match value (b !!! (x, y)) with
  | None => blank
  | Some retval => pretty retval
  end.

(** [Board.update_all_cells_possible_values] *)
Definition update_all_cells_possible_values (b : Board) : Board :=
  foldl (fun b p => match value (b !!! p) with
                    | None => (get_possible_values b p).1
                    | Some _ => b
                    end) b iter_coords.

(** [Board.count_all_possible_values] *)
Definition count_all_possible_values (b : Board) : nat :=
  foldl (fun count cell => count + size (possibles cell)) 0 (values b).

Section Choice.

(** [random.choice]: on an empty sequence it raises [IndexError], here
    [None]; otherwise the generator hands out an index below the length and
    the next state. *)
Context {rng : Type}.
Variable randbelow : rng → nat → nat * rng.

Definition random_choice {A : Type} (g : rng) (seq : list A) : option (A * rng) :=
  match seq with
  | [] => None
  | _ => let '(i, g') := randbelow g (List.length seq) in
         match seq !! i with
         | Some a => Some (a, g')
         | None => None
         end
  end.

(** [Board.clear_random_cell]; the chosen cell is the object that the board
    holds at the cell's own coordinates. *)
Definition clear_random_cell (g : rng) (b : Board) : option (Board * rng) :=
  match random_choice g (get_solved_cells b) with
  | Some (random_cell, g') =>
      Some (alter Cell_clear (cell_x random_cell, cell_y random_cell) b, g')
  | None => None
  end.

End Choice.

(** ** More notions used by the statements *)

(** [s] is a finished puzzle: complete, valid, with the digits 1 to 9. *)
Definition digit_solution (s : Board) : Prop :=
  complete s ∧ is_valid s = true
  ∧ ∀ x y v, x < 9 → y < 9 → value (s !!! (x, y)) = Some v → (1 ≤ v ≤ 9)%Z.

(** The values that the row, the column and the block of the cell at
    [(x, y)] hold. *)
Definition seen_from (b : Board) (x y : nat) (v : Z) : Prop :=
  v ∈ get_row b y ∨ v ∈ get_column b x ∨ v ∈ get_chunk b ((y / 3) * 3 + x / 3).

(** What a step of [solve] that starts on [b] leaves behind: the 81 cells,
    the values of [b], every finished puzzle that [b] can still become, and a
    valid board unless it raised [BoardException]. *)
Definition step_post (b b' : Board) (r : result unit) : Prop :=
  well_formed b' = true ∧ extends b b'
  ∧ (∀ s, digit_solution s → extends b s → extends b' s)
  ∧ match r with
    | Ok _ => is_valid b' = true
    | Raise e => ∃ msg, e = BoardException msg
    end.

(** ** More example inputs *)

(** The board that [solve] leaves for the puzzle of [main.py]. *)
Definition puzzle_solved : Board := from_option fst ∅ (solve 4 1 puzzle_board).


(** The board that the search with the order-keeping shuffle leaves for the
    puzzle of [main.py]. *)
Definition puzzle_searched : Board :=
  from_option (fun res => res.1.2) ∅ (solve_sudoku id_shuffle 82 tt puzzle_board).

(** The character that [save_to_string] writes for a cell whose value is
    unassigned or one of 0..9. *)
Definition cell_char (cell : Cell) : ascii :=
  match value cell with
  | Some v => ascii_of_nat (48 + Z.to_nat v)
  | None => "."%char
  end.

(** A generator that always hands out the first index. *)
Definition first_index (g : unit) (n : nat) : nat * unit := (0, g).

(** * Properties of the embedding *)

(** ** Coordinates *)

Lemma elem_of_iter_coords x y : (x, y) ∈ iter_coords ↔ x < 9 ∧ y < 9.
Proof.
  rw /iter_coords list_elem_of_In in_flat_map. split.
  - intros (y' & Hy%list_elem_of_In%elem_of_seq & Hx%list_elem_of_In%list_elem_of_fmap).
    destruct Hx as (x' & [= -> ->] & Hx%elem_of_seq). lia.
  - intros [Hx Hy]. exists y. split; apply list_elem_of_In.
    + apply elem_of_seq. lia.
    + apply list_elem_of_fmap. exists x. split; [done|]. apply elem_of_seq. lia.
Qed.

Lemma NoDup_iter_coords : NoDup iter_coords.
Proof. apply (bool_decide_unpack _). by vm_compute. Qed.

Lemma elem_of_chunk_coords i x y :
  i < 9 →
  (x, y) ∈ chunk_coords i ↔ x < 9 ∧ y < 9 ∧ (y / 3) * 3 + x / 3 = i.
Proof.
  intros Hi. rw /chunk_coords list_elem_of_In in_flat_map. split.
  - intros (y' & Hy%list_elem_of_In%elem_of_seq & Hx%list_elem_of_In%list_elem_of_fmap).
    destruct Hx as (x' & [= -> ->] & Hx%elem_of_seq). lia.
  - intros (Hx & Hy & <-). exists y. split; apply list_elem_of_In.
    + apply elem_of_seq. lia.
    + apply list_elem_of_fmap. exists x. split; [done|]. apply elem_of_seq. lia.
Qed.

Lemma NoDup_chunk_coords i : i < 9 → NoDup (chunk_coords i).
Proof.
  intros Hi. assert (i ∈ seq 0 9) as Hin by (apply elem_of_seq; lia).
  clear Hi. revert i Hin. apply Forall_forall.
  apply (bool_decide_unpack _). by vm_compute.
Qed.

(** ** Values of a board *)

Lemma value_lookup_total_alter (f : Cell → Cell) (b : Board) (p q : nat * nat) :
  (∀ c, value (f c) = value c) →
  value (alter f p b !!! q) = value (b !!! q).
Proof.
  intros Hf. destruct (decide (p = q)) as [->|Hne].
  - rw lookup_total_alter_eq lookup_total_alt.
    destruct (b !! q) as [c|]; simpl; [apply Hf|done].
  - by rw lookup_total_alter_ne.
Qed.

Lemma value_set_value (b : Board) (p q : nat * nat) v c :
  b !! p = Some c →
  value (alter (set_value v) p b !!! q)
  = if decide (p = q) then v else value (b !!! q).
Proof.
  intros Hc. case_decide as Hpq.
  - subst q. by rw lookup_total_alter_eq Hc.
  - by rw lookup_total_alter_ne.
Qed.

Lemma value_clone (b : Board) q : value (clone b !!! q) = value (b !!! q).
Proof.
  rw /clone !lookup_total_alt lookup_fmap.
  by destruct (b !! q).
Qed.

Lemma omap_value_ext (b b' : Board) {A} (f : A → nat * nat) (l : list A) :
  same_values b b' →
  omap (fun a => value (b !!! f a)) l = omap (fun a => value (b' !!! f a)) l.
Proof.
  intros H. induction l as [|a l IH]; [done|].
  cbn. by rw H IH.
Qed.

Lemma get_row_ext b b' y : same_values b b' → get_row b y = get_row b' y.
Proof. intros H. by apply (omap_value_ext b b' (fun x => (x, y))). Qed.

Lemma get_column_ext b b' x : same_values b b' → get_column b x = get_column b' x.
Proof. intros H. by apply (omap_value_ext b b' (fun y => (x, y))). Qed.

Lemma get_chunk_ext b b' i : same_values b b' → get_chunk b i = get_chunk b' i.
Proof. intros H. by apply (omap_value_ext b b' id). Qed.

Lemma forallb_ext_in {A} (f g : A → bool) (l : list A) :
  (∀ a, a ∈ l → f a = g a) → forallb f l = forallb g l.
Proof.
  induction l as [|a l IH]; intros H; [done|].
  cbn. f_equal; [apply H; by left|]. apply IH. intros a' ?. apply H. by right.
Qed.

Lemma is_valid_ext b b' : same_values b b' → is_valid b = is_valid b'.
Proof.
  intros H. rw /is_valid. apply forallb_ext_in. intros i _.
  by rw (get_row_ext b b') // (get_column_ext b b') // (get_chunk_ext b b').
Qed.

Lemma would_be_valid_set_cell b x y v :
  would_be_valid b x y v = is_valid (set_cell b x y v).
Proof.
  apply is_valid_ext. intros q. rw /set_cell.
  destruct (decide ((x, y) = q)) as [<-|Hne].
  - rw !lookup_total_alter_eq /clone lookup_fmap.
    by destruct (b !! (x, y)).
  - by rw !lookup_total_alter_ne // value_clone.
Qed.

(** ** Well-formed boards *)

Lemma well_formed_lookup b x y :
  well_formed b = true → x < 9 → y < 9 →
  ∃ c, b !! (x, y) = Some c ∧ cell_x c = x ∧ cell_y c = y.
Proof.
  intros [Hall _]%andb_prop Hx Hy.
  rw forallb_forall in Hall.
  specialize (Hall (x, y)). cbn beta iota in Hall.
  destruct (b !! (x, y)) as [c|].
  - exists c. split; [done|].
    assert (Hin : In (x, y) iter_coords).
    { by apply list_elem_of_In, elem_of_iter_coords. }
    apply Hall, andb_prop in Hin as [?%Nat.eqb_eq ?%Nat.eqb_eq]. done.
  - exfalso. assert (Hin : In (x, y) iter_coords).
    { by apply list_elem_of_In, elem_of_iter_coords. }
    by apply Hall in Hin.
Qed.

Lemma well_formed_lookup_total b x y :
  well_formed b = true → x < 9 → y < 9 →
  b !! (x, y) = Some (b !!! (x, y))
  ∧ cell_x (b !!! (x, y)) = x ∧ cell_y (b !!! (x, y)) = y.
Proof.
  intros Hwf Hx Hy.
  destruct (well_formed_lookup b x y Hwf Hx Hy) as (c & Hc & ? & ?).
  by rw lookup_total_alt Hc.
Qed.

Lemma well_formed_alter (f : Cell → Cell) b p :
  (∀ c, cell_x (f c) = cell_x c ∧ cell_y (f c) = cell_y c) →
  well_formed b = true → well_formed (alter f p b) = true.
Proof.
  intros Hf [Hall Hsize]%andb_prop. apply andb_true_intro. split.
  - rw forallb_forall in Hall. apply forallb_forall. intros [x y] Hin.
    specialize (Hall _ Hin). cbn beta iota in Hall.
    rw lookup_alter. case_decide as Hp.
    + subst p. destruct (b !! (x, y)) as [c|]; [|done].
      cbn. by destruct (Hf c) as [-> ->].
    + done.
  - by rw -size_dom dom_alter_L size_dom.
Qed.

Lemma well_formed_Board_new : well_formed Board_new = true.
Proof. by vm_compute. Qed.

Lemma well_formed_clear_board b :
  well_formed b = true → well_formed (clear_board b) = true.
Proof.
  rw /clear_board. generalize iter_coords. intros l. revert b.
  induction l as [|p l IH]; intros b Hwf; [done|].
  cbn. apply IH. by apply well_formed_alter.
Qed.

(** ** Duplicates *)

Lemma size_list_to_set_cons (a : Z) (l : list Z) :
  size (list_to_set (a :: l) : gset Z)
  = if decide (a ∈ l) then size (list_to_set l : gset Z)
    else S (size (list_to_set l : gset Z)).
Proof.
  cbn. case_decide as Ha.
  - f_equal. apply subseteq_union_1_L, singleton_subseteq_l.
    by apply elem_of_list_to_set.
  - rw size_union.
    + by rw size_singleton.
    + apply disjoint_singleton_l. by rw elem_of_list_to_set.
Qed.

Lemma size_list_to_set_le (l : list Z) :
  size (list_to_set l : gset Z) ≤ List.length l.
Proof.
  induction l as [|a l IH]; [done|].
  rw size_list_to_set_cons. case_decide; cbn; lia.
Qed.

Lemma has_duplicates_false (l : list Z) : has_duplicates l = false ↔ NoDup l.
Proof.
  rw /has_duplicates negb_false_iff Nat.eqb_eq. split.
  - induction l as [|a l IH]; intros Hsz; [apply NoDup_nil_2|].
    rw size_list_to_set_cons in Hsz.
    pose proof (size_list_to_set_le l). cbn in Hsz.
    case_decide; [lia|]. apply NoDup_cons. split; [done|]. apply IH. lia.
  - apply size_list_to_set.
Qed.

Lemma has_duplicates_true (l : list Z) : has_duplicates l = true ↔ ¬ NoDup l.
Proof.
  rw -has_duplicates_false. by destruct (has_duplicates l).
Qed.

Section omap_duplicates.
Context {A : Type} (f : A → option Z).

Lemma repeated_in_cons a l : repeated_in f l → repeated_in f (a :: l).
Proof.
  intros (a1 & a2 & v & ? & ? & ? & ? & ?).
  exists a1, a2, v. repeat split; try done; by right.
Qed.

Lemma repeated_in_not_NoDup l : repeated_in f l → ¬ NoDup (omap f l).
Proof.
  induction l as [|c l IH]; intros (a1 & a2 & v & H1 & H2 & Hne & Hf1 & Hf2).
  { by apply elem_of_nil in H1. }
  apply elem_of_cons in H1 as [->|H1]; apply elem_of_cons in H2 as [->|H2].
  - done.
  - cbn. rw Hf1. intros [Hnin _]%NoDup_cons. apply Hnin.
    apply list_elem_of_omap. by exists a2.
  - cbn. rw Hf2. intros [Hnin _]%NoDup_cons. apply Hnin.
    apply list_elem_of_omap. by exists a1.
  - intros Hnd. apply IH; [by exists a1, a2, v|].
    cbn in Hnd. destruct (f c); [by apply NoDup_cons in Hnd as [_ ?]|done].
Qed.

Lemma NoDup_or_repeated_in l :
  NoDup l → NoDup (omap f l) ∨ repeated_in f l.
Proof.
  induction l as [|c l IH]; intros Hnd; [left; apply NoDup_nil_2|].
  apply NoDup_cons in Hnd as [Hc Hnd].
  destruct (IH Hnd) as [Hok|Hrep]; [|right; by apply repeated_in_cons].
  cbn. destruct (f c) as [v|] eqn:Hfc; [|by left].
  destruct (decide (v ∈ omap f l)) as [Hin|Hnin].
  - right. apply list_elem_of_omap in Hin as (a & Ha & Hfa).
    exists c, a, v. repeat split; [by left|by right| |done|done].
    intros ->. done.
  - left. by apply NoDup_cons.
Qed.

Lemma has_duplicates_omap l :
  NoDup l → has_duplicates (omap f l) = true ↔ repeated_in f l.
Proof.
  intros Hnd. rw has_duplicates_true. split.
  - intros Hdup. by destruct (NoDup_or_repeated_in l Hnd).
  - apply repeated_in_not_NoDup.
Qed.
End omap_duplicates.

(** ** Validity *)

Lemma has_duplicates_get_row b y :
  has_duplicates (get_row b y) = true ↔ repeated_value b (in_row y).
Proof.
  rw /get_row has_duplicates_omap; [|apply NoDup_seq]. split.
  - intros (x1 & x2 & v & H1%elem_of_seq & H2%elem_of_seq & Hne & Hv1 & Hv2).
    exists (x1, y), (x2, y), v. rw /in_row /=.
    repeat split; try done; try lia. congruence.
  - intros ([x1 y1] & [x2 y2] & v & [H1 E1] & [H2 E2] & Hne & Hv1 & Hv2).
    simpl in H1, E1, H2, E2. subst. exists x1, x2, v.
    repeat split; try done; try (apply elem_of_seq; lia). congruence.
Qed.

Lemma has_duplicates_get_column b x :
  has_duplicates (get_column b x) = true ↔ repeated_value b (in_column x).
Proof.
  rw /get_column has_duplicates_omap; [|apply NoDup_seq]. split.
  - intros (y1 & y2 & v & H1%elem_of_seq & H2%elem_of_seq & Hne & Hv1 & Hv2).
    exists (x, y1), (x, y2), v. rw /in_column /=.
    repeat split; try done; try lia. congruence.
  - intros ([x1 y1] & [x2 y2] & v & [E1 H1] & [E2 H2] & Hne & Hv1 & Hv2).
    simpl in H1, E1, H2, E2. subst. exists y1, y2, v.
    repeat split; try done; try (apply elem_of_seq; lia). congruence.
Qed.

Lemma has_duplicates_get_chunk b i :
  i < 9 →
  has_duplicates (get_chunk b i) = true ↔ repeated_value b (in_block i).
Proof.
  intros Hi. rw /get_chunk has_duplicates_omap; [|by apply NoDup_chunk_coords].
  split.
  - intros ([x1 y1] & [x2 y2] & v & H1 & H2 & Hne & Hv1 & Hv2).
    apply elem_of_chunk_coords in H1; [|done].
    apply elem_of_chunk_coords in H2; [|done].
    by exists (x1, y1), (x2, y2), v.
  - intros ([x1 y1] & [x2 y2] & v & H1 & H2 & Hne & Hv1 & Hv2).
    exists (x1, y1), (x2, y2), v.
    repeat split; try done; by apply elem_of_chunk_coords.
Qed.

Lemma is_valid_false_iff b : is_valid b = false ↔ conflict b.
Proof.
  rw /is_valid /conflict. split.
  - intros Hf. apply not_true_iff_false in Hf.
    assert (Hex : Exists (fun i =>
              (negb (has_duplicates (get_row b i))
               && negb (has_duplicates (get_column b i))
               && negb (has_duplicates (get_chunk b i))) ≠ true) (seq 0 9)).
    { apply not_Forall_Exists; [solve_decision|].
      intros Hall. apply Hf, forallb_forall. intros i Hin%list_elem_of_In.
      rw Forall_forall in Hall. by apply Hall. }
    apply Exists_exists in Hex as (i & Hi%elem_of_seq & Hdup).
    exists i. split; [lia|].
    destruct (has_duplicates (get_row b i)) eqn:Hr.
    { left. by apply has_duplicates_get_row. }
    destruct (has_duplicates (get_column b i)) eqn:Hc.
    { right; left. by apply has_duplicates_get_column. }
    destruct (has_duplicates (get_chunk b i)) eqn:Hk; [|done].
    right; right. apply has_duplicates_get_chunk; [lia|done].
  - intros (i & Hi & Hrep). apply not_true_iff_false. intros Hall.
    rw forallb_forall in Hall.
    assert (Hin : In i (seq 0 9)) by (apply list_elem_of_In, elem_of_seq; lia).
    apply Hall in Hin.
    apply andb_prop in Hin as [[Hr Hc]%andb_prop Hk].
    apply negb_true_iff in Hr, Hc, Hk.
    destruct Hrep as [Hrep|[Hrep|Hrep]].
    + apply has_duplicates_get_row in Hrep. congruence.
    + apply has_duplicates_get_column in Hrep. congruence.
    + apply has_duplicates_get_chunk in Hrep; [congruence|done].
Qed.

Lemma is_valid_true_iff b : is_valid b = true ↔ ¬ conflict b.
Proof.
  rw -is_valid_false_iff. by destruct (is_valid b).
Qed.

(** ** Unsolved cells *)

Lemma extends_is_valid b b' :
  extends b b' → is_valid b' = true → is_valid b = true.
Proof.
  intros Hext Hv. apply is_valid_true_iff. apply is_valid_true_iff in Hv.
  intros (i & Hi & Hrep). apply Hv. exists i. split; [done|].
  assert (Hmono : ∀ group : nat * nat → Prop,
             (∀ p, group p → p.1 < 9 ∧ p.2 < 9) →
             repeated_value b group → repeated_value b' group).
  { intros group Hgrid ([x1 y1] & [x2 y2] & v & H1 & H2 & ? & ? & ?).
    exists (x1, y1), (x2, y2), v.
    destruct (Hgrid _ H1), (Hgrid _ H2).
    repeat split; try done; by apply Hext. }
  destruct Hrep as [?|[?|?]]; [left|right; left|right; right];
    (apply Hmono; [|done]); intros [x y]; rw /in_row /in_column /in_block /=; lia.
Qed.

Lemma length_filter_lt {A} (P Q : A → Prop) `{!∀ a, Decision (P a)}
    `{!∀ a, Decision (Q a)} (l : list A) a :
  (∀ a', a' ∈ l → Q a' → P a') → a ∈ l → P a → ¬ Q a →
  List.length (filter Q l) < List.length (filter P l).
Proof.
  intros Himp Hin HP HQ.
  assert (Hle : ∀ k : list A, (∀ a', a' ∈ k → Q a' → P a') →
                 List.length (filter Q k) ≤ List.length (filter P k)).
  { induction k as [|c k IH]; intros Hk; [done|].
    rw !filter_cons.
    assert (List.length (filter Q k) ≤ List.length (filter P k)).
    { apply IH. intros ???. apply Hk; [by right|done]. }
    destruct (decide (Q c)) as [Hq|Hq], (decide (P c)) as [Hp|Hp]; cbn; try lia.
    exfalso. apply Hp, Hk; [by left|done]. }
  induction l as [|c l IH]; [by apply elem_of_nil in Hin|].
  rw !filter_cons. apply elem_of_cons in Hin as [->|Hin].
  - assert (List.length (filter Q l) ≤ List.length (filter P l)).
    { apply Hle. intros ???. apply Himp; [by right|done]. }
    destruct (decide (Q c)) as [Hq|Hq], (decide (P c)) as [Hp|Hp]; cbn; try lia; done.
  - assert (List.length (filter Q l) < List.length (filter P l)).
    { apply IH; [|done]. intros ???. apply Himp; [by right|done]. }
    destruct (decide (Q c)) as [Hq|Hq], (decide (P c)) as [Hp|Hp]; cbn; try lia.
    exfalso. apply Hp, Himp; [by left|done].
Qed.

Lemma get_unsolved_count_coords b :
  get_unsolved_count b
  = List.length (filter (fun p => value (b !!! p) = None) iter_coords).
Proof.
  rw /get_unsolved_count /get_unsolved_cells /values /iter_cells.
  induction iter_coords as [|p l IH]; [done|].
  cbn [map]. rw !filter_cons. case_decide; cbn; by rw IH.
Qed.

Lemma get_unsolved_count_assign b x y c v :
  x < 9 → y < 9 → b !! (x, y) = Some c → value c = None →
  get_unsolved_count (alter (set_value (Some v)) (x, y) b) < get_unsolved_count b.
Proof.
  intros Hx Hy Hc Hnone. rw !get_unsolved_count_coords.
  apply (length_filter_lt _ _ _ (x, y)).
  - intros q _. rw (value_set_value b (x, y) q (Some v) c) //.
    by case_decide.
  - by apply elem_of_iter_coords.
  - by rw lookup_total_alt Hc.
  - rw (value_set_value b (x, y) (x, y) (Some v) c) //. by rw decide_True.
Qed.

Lemma find_unsolved_Some b cell :
  well_formed b = true →
  List.find (fun cell => bool_decide (value cell = None)) (iter_cells b) = Some cell →
  cell_x cell < 9 ∧ cell_y cell < 9
  ∧ b !! (cell_x cell, cell_y cell) = Some cell ∧ value cell = None.
Proof.
  intros Hwf [Hin Hnone]%find_some.
  apply bool_decide_eq_true in Hnone.
  apply list_elem_of_In, list_elem_of_fmap in Hin as ([x y] & -> & Hp).
  apply elem_of_iter_coords in Hp as [Hx Hy].
  destruct (well_formed_lookup_total b x y Hwf Hx Hy) as (Hl & -> & ->).
  done.
Qed.

Lemma find_unsolved_None b :
  List.find (fun cell => bool_decide (value cell = None)) (iter_cells b) = None →
  complete b.
Proof.
  intros Hnone x y Hx Hy Hv.
  pose proof (find_none _ _ Hnone (b !!! (x, y))) as Hf.
  rw bool_decide_eq_false in Hf. apply Hf; [|done].
  apply list_elem_of_In, list_elem_of_fmap. exists (x, y).
  split; [done|]. by apply elem_of_iter_coords.
Qed.

(** ** Backtracking search *)

Lemma unassign_assign (b : Board) p cell num :
  b !! p = Some cell → value cell = None →
  alter (set_value None) p (alter (set_value (Some num)) p b) = b.
Proof.
  intros Hc Hnone. rw alter_alter_eq. apply alter_id.
  intros c' Hc'. assert (c' = cell) as -> by congruence.
  destruct cell as [cx cy cv cp]. cbn in Hnone. by subst cv.
Qed.

Section Backtracking_spec.
Context {rng : Type} (shuffle : rng → list Z → list Z * rng).

(** [allowed] holds of every number that a shuffle can hand out. *)
Context (allowed : Z → Prop).
Hypothesis shuffle_allowed : ∀ g, Forall allowed (shuffle g digits).1.

Lemma try_nums_spec recurse cell nums g b :
  well_formed b = true →
  cell_x cell < 9 → cell_y cell < 9 →
  b !! (cell_x cell, cell_y cell) = Some cell → value cell = None →
  (∀ g1 b1, well_formed b1 = true →
            get_unsolved_count b1 < get_unsolved_count b →
            search_spec shuffle allowed recurse g1 b1) →
  Forall allowed nums →
  ∃ res, try_nums recurse cell nums g b = Some res
         ∧ search_post allowed b res
         ∧ (res.2 = true → is_valid res.1.2 = true)
         ∧ ∀ s n, complete s → is_valid s = true → extends b s →
                  (∀ g x y v, x < 9 → y < 9 → value (s !!! (x, y)) = Some v →
                              v ∈ (shuffle g digits).1) →
                  value (s !!! (cell_x cell, cell_y cell)) = Some n →
                  n ∈ nums → res.2 = true.
Proof.
  intros Hwf Hx Hy Hcell Hnone Hrec. revert g.
  induction nums as [|num rest IH]; intros g Hnums.
  { exists (g, b, false). repeat split; try done.
    intros s n _ _ _ _ _ Hin. by apply elem_of_nil in Hin. }
  apply Forall_cons in Hnums as [Hnum Hrest].
  set (p := (cell_x cell, cell_y cell)) in *.
  cbn [try_nums]. fold p.
  destruct (would_be_valid b (cell_x cell) (cell_y cell) num) eqn:Hwbv.
  - rw would_be_valid_set_cell /set_cell in Hwbv. fold p in Hwbv.
    set (b1 := alter (set_value (Some num)) p b) in *.
    assert (Hval1 : ∀ q, value (b1 !!! q)
                         = if decide (p = q) then Some num else value (b !!! q)).
    { intros q. by apply (value_set_value b p q (Some num) cell). }
    destruct (Hrec g b1) as ([[g' b'] r] & -> & Hpost & Hsolv).
    { by apply well_formed_alter. }
    { by apply (get_unsolved_count_assign b _ _ cell). }
    destruct r.
    + exists (g', b', true). split; [done|].
      destruct Hpost as (Hwf' & Hcomp & Hvalid & Hext & Hfrom).
      repeat split; try done; try by auto.
      * intros x y v ?? Hq. apply Hext; [done..|]. rw Hval1.
        case_decide as Hp; [|done].
        rw -Hp lookup_total_alt Hcell /= Hnone in Hq. done.
      * intros q v Hq. destruct (Hfrom q v Hq) as [Hq1|?]; [|by right].
        rw Hval1 in Hq1. case_decide; [|by left].
        right. congruence.
    + cbn in Hpost. subst b'. rw /b1 (unassign_assign b p cell num) //.
      destruct (IH g' Hrest) as (res & Hres & Hpost & Hvalid & Hcompl).
      exists res. repeat split; try done.
      intros s n Hs1 Hs2 Hs3 Hs4 Hs5 [->|Hin]%elem_of_cons; [|by eauto].
      exfalso. assert (false = true); [|done]. apply Hsolv.
      exists s. repeat split; try done.
      intros x y v ??. rw Hval1. case_decide as Hp; [|by apply Hs3].
      rw -Hp. congruence.
  - destruct (IH g Hrest) as (res & Hres & Hpost & Hvalid & Hcompl).
    exists res. repeat split; try done.
    intros s n Hs1 Hs2 Hs3 Hs4 Hs5 [->|Hin]%elem_of_cons; [|by eauto].
    exfalso. rw would_be_valid_set_cell /set_cell in Hwbv. fold p in Hwbv.
    assert (is_valid (alter (set_value (Some num)) p b) = true); [|congruence].
    apply (extends_is_valid _ s); [|done].
    intros x y v ??. rw (value_set_value b p (x, y) (Some num) cell) //.
    case_decide as Hp; [|by apply Hs3]. rw -Hp. congruence.
Qed.

Lemma solve_sudoku_spec fuel g b :
  well_formed b = true → get_unsolved_count b < fuel →
  search_spec shuffle allowed (solve_sudoku shuffle fuel) g b.
Proof.
  revert g b. induction fuel as [|fuel IH]; intros g b Hwf Hfuel; [lia|].
  rw /search_spec. cbn [solve_sudoku].
  destruct (List.find _ (iter_cells b)) as [cell|] eqn:Hfind.
  - apply find_unsolved_Some in Hfind as (Hx & Hy & Hcell & Hnone); [|done].
    pose proof (shuffle_allowed g) as Hnums.
    destruct (shuffle g [1; 2; 3; 4; 5; 6; 7; 8; 9]%Z) as [nums g1] eqn:Hsh.
    destruct (try_nums_spec (solve_sudoku shuffle fuel) cell nums g1 b)
      as ([[g' b'] r] & Hres & Hpost & Hvalid & Hcompl); try done.
    { intros g2 b2 Hwf2 Hlt. apply IH; [done|lia]. }
    { by rw /digits Hsh in Hnums. }
    exists (g', b', r). repeat split; try done.
    intros (s & Hs1 & Hs2 & Hs3 & Hs4).
    destruct (value (s !!! (cell_x cell, cell_y cell))) as [n|] eqn:Hn.
    + apply (Hcompl s n); try done.
      specialize (Hs4 g _ _ _ Hx Hy Hn). by rw /digits Hsh in Hs4.
    + by apply Hs1 in Hn.
  - exists (g, b, true). split; [done|]. split; [|done].
    split; [done|]. split; [by apply find_unsolved_None|].
    split; [done|]. split; [by intros ?????|]. intros ???. by left.
Qed.
End Backtracking_spec.

(** ** A complete valid grid *)

Lemma solved_grid_digits : forallb (digit_at solved_grid) iter_coords = true.
Proof. by vm_compute. Qed.

Lemma solved_grid_valid : is_valid solved_grid = true.
Proof. by vm_compute. Qed.

Lemma solved_grid_digit x y :
  x < 9 → y < 9 → ∃ v, value (solved_grid !!! (x, y)) = Some v ∧ v ∈ digits.
Proof.
  intros Hx Hy. pose proof solved_grid_digits as Hall.
  rw forallb_forall in Hall. specialize (Hall (x, y)).
  rw /digit_at in Hall. destruct (value (solved_grid !!! (x, y))) as [v|].
  - exists v. split; [done|]. eapply bool_decide_eq_true, Hall.
    by apply list_elem_of_In, elem_of_iter_coords.
  - discriminate Hall. by apply list_elem_of_In, elem_of_iter_coords.
Qed.

(** ** Groups of a complete valid grid *)

Lemma length_omap_total {A} (f : A → option Z) (l : list A) :
  (∀ a, a ∈ l → f a ≠ None) → List.length (omap f l) = List.length l.
Proof.
  induction l as [|a l IH]; intros Hl; [done|].
  cbn. destruct (f a) eqn:Hfa.
  - cbn. f_equal. apply IH. intros ??. apply Hl. by right.
  - exfalso. by apply (Hl a); [left|].
Qed.

Lemma group_permutation (b : Board) (l : list (nat * nat)) :
  List.length l = 9 →
  (∀ p, p ∈ l → ∃ v, value (b !!! p) = Some v ∧ v ∈ digits) →
  has_duplicates (omap (fun p => value (b !!! p)) l) = false →
  omap (fun p => value (b !!! p)) l ≡ₚ digits.
Proof.
  intros Hlen Hdig Hnd%has_duplicates_false.
  apply submseteq_length_Permutation.
  - apply NoDup_submseteq; [done|].
    intros v (p & Hp & Hv)%list_elem_of_omap.
    destruct (Hdig p Hp) as (v' & Hv' & ?). congruence.
  - rw length_omap_total; [by rw Hlen|].
    intros p Hp. destruct (Hdig p Hp) as (v' & -> & ?). done.
Qed.

Lemma is_valid_groups b i :
  is_valid b = true → i < 9 →
  has_duplicates (get_row b i) = false
  ∧ has_duplicates (get_column b i) = false
  ∧ has_duplicates (get_chunk b i) = false.
Proof.
  intros Hv Hi. rw /is_valid forallb_forall in Hv.
  assert (Hin : In i (seq 0 9)) by (apply list_elem_of_In, elem_of_seq; lia).
  apply Hv in Hin. apply andb_prop in Hin as [[Hr Hc]%andb_prop Hk].
  by apply negb_true_iff in Hr, Hc, Hk.
Qed.

Lemma get_row_fmap b y :
  get_row b y = omap (fun p => value (b !!! p)) ((fun x => (x, y)) <$> seq 0 9).
Proof. done. Qed.

Lemma get_column_fmap b x :
  get_column b x = omap (fun p => value (b !!! p)) ((fun y => (x, y)) <$> seq 0 9).
Proof. done. Qed.

Lemma groups_permutation b i :
  i < 9 → is_valid b = true →
  (∀ x y, x < 9 → y < 9 → ∃ v, value (b !!! (x, y)) = Some v ∧ v ∈ digits) →
  get_row b i ≡ₚ digits ∧ get_column b i ≡ₚ digits ∧ get_chunk b i ≡ₚ digits.
Proof.
  intros Hi Hv Hdig.
  destruct (is_valid_groups b i Hv Hi) as (Hr & Hc & Hk).
  split; [|split].
  - rw get_row_fmap in Hr |- *. apply group_permutation; [done| |done].
    intros p (x & -> & Hx%elem_of_seq)%list_elem_of_fmap. apply Hdig; lia.
  - rw get_column_fmap in Hc |- *. apply group_permutation; [done| |done].
    intros p (y & -> & Hy%elem_of_seq)%list_elem_of_fmap. apply Hdig; lia.
  - apply group_permutation; [|  |done].
    + assert (Hin : i ∈ seq 0 9) by (apply elem_of_seq; lia).
      clear -Hin. revert i Hin. apply Forall_forall.
      apply (bool_decide_unpack _). by vm_compute.
    + intros [x y] Hp%elem_of_chunk_coords; [|done]. apply Hdig; lia.
Qed.

Lemma unsolved_count_81 b x y :
  get_unsolved_count b = 81 → x < 9 → y < 9 → value (b !!! (x, y)) = None.
Proof.
  rw get_unsolved_count_coords. intros Hcount Hx Hy.
  assert (Hall : Forall (fun p => value (b !!! p) = None) iter_coords).
  { apply Forall_forall. intros p Hp.
    destruct (decide (value (b !!! p) = None)) as [|Hne]; [done|exfalso].
    assert (List.length (filter (fun p => value (b !!! p) = None) iter_coords)
            < List.length (filter (fun _ => True) iter_coords)).
    { by apply (length_filter_lt _ _ _ p). }
    pose proof (length_filter (fun _ : nat * nat => True) iter_coords) as Hle.
    change (List.length iter_coords) with 81 in Hle. lia. }
  rw Forall_forall in Hall. by apply Hall, elem_of_iter_coords.
Qed.

Lemma complete_is_solved b :
  is_valid b = true → complete b → is_solved b = Ok true.
Proof.
  intros Hv Hc. rw /is_solved Hv. cbn [negb]. f_equal.
  apply forallb_forall. intros cell Hin%list_elem_of_In.
  apply list_elem_of_fmap in Hin as ([x y] & -> & [??]%elem_of_iter_coords).
  apply bool_decide_eq_true. by apply Hc.
Qed.

Lemma complete_unsolved_count b : complete b → get_unsolved_count b = 0.
Proof.
  intros Hc. rw get_unsolved_count_coords.
  destruct (filter _ iter_coords) as [|[x y] l] eqn:Hf; [done|exfalso].
  assert (Hin : (x, y) ∈ filter (fun p => value (b !!! p) = None) iter_coords).
  { rw Hf. by left. }
  apply list_elem_of_filter in Hin as [Hnone [??]%elem_of_iter_coords].
  by apply (Hc x y).
Qed.

(** ** Claims about the backtracking solver *)

Section Backtracking_claims.
Context {rng : Type} (shuffle : rng → list Z → list Z * rng).

(** C10.  A run of [solve_sudoku] on any grid finishes within a recursion
    depth of one more than the number of unsolved cells, and when it
    returns [False] the board is the board of the call: every cell has
    the value it had then. *)
Theorem solve_sudoku_failure_restores fuel g b :
  well_formed b = true → get_unsolved_count b < fuel →
  ∃ g' b' r, solve_sudoku shuffle fuel g b = Some (g', b', r)
             ∧ (r = false →
                b' = b ∧ ∀ x y, get_cell b' x y = get_cell b x y).
Proof.
  intros Hwf Hfuel.
  destruct (solve_sudoku_spec shuffle (fun _ => True) (fun g => Forall_true _ _ (fun _ => I))
              fuel g b Hwf Hfuel) as ([[g' b'] r] & Hrun & Hpost & _).
  exists g', b', r. split; [done|]. intros ->. cbn in Hpost. by subst b'.
Qed.

(** [random.shuffle] reorders the list it is given. *)
Hypothesis shuffle_perm : ∀ g l, (shuffle g l).1 ≡ₚ l.

(** C2.  Whatever the shuffles, a run of [solve_sudoku] on a grid with
    all 81 cells unassigned finishes (a recursion depth of 82 is enough)
    and returns [True]; it leaves a grid that [is_solved] accepts, with
    every cell assigned and every row, column and block a permutation of
    1..9. *)
Theorem solve_sudoku_generates fuel g b :
  well_formed b = true → get_unsolved_count b = 81 → 81 < fuel →
  ∃ g' b', solve_sudoku shuffle fuel g b = Some (g', b', true)
           ∧ (∀ x y, x < 9 → y < 9 → get_cell b' x y ≠ None)
           ∧ get_unsolved_count b' = 0
           ∧ is_solved b' = Ok true
           ∧ ∀ i, i < 9 →
                  get_row b' i ≡ₚ [1; 2; 3; 4; 5; 6; 7; 8; 9]%Z
                  ∧ get_column b' i ≡ₚ [1; 2; 3; 4; 5; 6; 7; 8; 9]%Z
                  ∧ get_chunk b' i ≡ₚ [1; 2; 3; 4; 5; 6; 7; 8; 9]%Z.
Proof.
  intros Hwf Hempty Hfuel.
  assert (Hallowed : ∀ g, Forall (fun v => v ∈ digits) (shuffle g digits).1).
  { intros g0. apply Forall_forall. intros v. by rw shuffle_perm. }
  destruct (solve_sudoku_spec shuffle _ Hallowed fuel g b Hwf)
    as ([[g' b'] r] & Hrun & Hpost & Hsolv); [lia|].
  assert (r = true) as ->.
  { apply Hsolv. exists solved_grid. split; [|split; [|split]].
    - intros x y Hx Hy. by destruct (solved_grid_digit x y Hx Hy) as (v & -> & _).
    - apply solved_grid_valid.
    - intros x y v Hx Hy. by rw (unsolved_count_81 b x y).
    - intros g0 x y v Hx Hy Hv. rw shuffle_perm.
      destruct (solved_grid_digit x y Hx Hy) as (v' & ? & ?). congruence. }
  destruct Hpost as (Hwf' & Hcomp & Hvalid & Hext & Hfrom).
  assert (Hv' : is_valid b' = true).
  { apply Hvalid, is_valid_true_iff.
    intros (i & Hi & Hrep).
    assert (Hno : ∀ group : nat * nat → Prop,
               (∀ p, group p → p.1 < 9 ∧ p.2 < 9) → ¬ repeated_value b group).
    { intros group Hgrid ([x y] & q & v & H1 & _ & _ & Hv & _).
      destruct (Hgrid _ H1). by rw (unsolved_count_81 b x y) in Hv. }
    destruct Hrep as [?|[?|?]]; (eapply Hno; [|done]);
      intros [x y]; rw /in_row /in_column /in_block /=; lia. }
  exists g', b'. split; [done|]. split; [by apply Hcomp|].
  split; [by apply complete_unsolved_count|].
  split; [by apply complete_is_solved|].
  intros i Hi. apply groups_permutation; [done..|].
  intros x y Hx Hy.
  destruct (value (b' !!! (x, y))) as [v|] eqn:Hv; [|by apply Hcomp in Hv].
  exists v. split; [done|].
  destruct (Hfrom _ _ Hv) as [Hb|?]; [|done].
  by rw (unsolved_count_81 b x y) in Hb.
Qed.
End Backtracking_claims.

(** ** Clearing the board *)

Lemma foldl_alter_lookup (f : Cell → Cell) (l : list (nat * nat)) (b : Board) q :
  NoDup l →
  foldl (fun b p => alter f p b) b l !! q
  = if decide (q ∈ l) then f <$> b !! q else b !! q.
Proof.
  revert b. induction l as [|p l IH]; intros b Hnd.
  { cbn [foldl]. case_decide as Hin; [by apply elem_of_nil in Hin|done]. }
  apply NoDup_cons in Hnd as [Hp Hnd]. cbn [foldl]. rw IH //.
  destruct (decide (q = p)) as [->|Hne].
  - rw lookup_alter_eq.
    destruct (decide (p ∈ l)) as [|_]; [done|].
    destruct (decide (p ∈ p :: l)) as [|Hn]; [done|]. exfalso. apply Hn. by left.
  - rw lookup_alter_ne; [|by intros ->].
    destruct (decide (q ∈ l)) as [Hin|Hnin], (decide (q ∈ p :: l)) as [Hin'|Hnin'];
      try done.
    + exfalso. apply Hnin'. by right.
    + by apply elem_of_cons in Hin' as [?|?].
Qed.

Lemma clear_board_lookup_total b x y :
  well_formed b = true → x < 9 → y < 9 →
  clear_board b !!! (x, y) = set_value None (set_possibles ∅ (b !!! (x, y))).
Proof.
  intros Hwf Hx Hy.
  destruct (well_formed_lookup_total b x y Hwf Hx Hy) as (Hl & _).
  rw !lookup_total_alt /clear_board foldl_alter_lookup; [|apply NoDup_iter_coords].
  case_decide as Hin; [by rw Hl|]. exfalso. by apply Hin, elem_of_iter_coords.
Qed.

(** ** Strings *)

Lemma length_list_ascii_of_string s :
  List.length (list_ascii_of_string s) = String.length s.
Proof. induction s as [|c s IH]; [done|]. simpl. by f_equal. Qed.

Lemma get_list_ascii_of_string s i :
  String.get i s = list_ascii_of_string s !! i.
Proof.
  revert i. induction s as [|c s IH]; intros i; [done|].
  destruct i as [|i]; [done|]. cbn. apply IH.
Qed.

Lemma get_string_of_list_ascii l i :
  String.get i (string_of_list_ascii l) = l !! i.
Proof.
  revert i. induction l as [|c l IH]; intros i; [done|].
  destruct i as [|i]; [done|]. cbn. apply IH.
Qed.

Lemma append_cons c s1 s2 : String c s1 +:+ s2 = String c (s1 +:+ s2).
Proof. done. Qed.

Lemma append_empty_r s : s +:+ "" = s.
Proof. induction s as [|c s IH]; [done|]. by rw append_cons IH. Qed.

Lemma append_assoc s1 s2 s3 : (s1 +:+ s2) +:+ s3 = s1 +:+ (s2 +:+ s3).
Proof. induction s1 as [|c s1 IH]; [done|]. by rw !append_cons IH. Qed.

Lemma foldl_append {A} (f : A → string) (l : list A) (acc : string) :
  foldl (fun retval a => retval +:+ f a) acc l
  = acc +:+ foldr (fun a rest => f a +:+ rest) "" l.
Proof.
  revert acc. induction l as [|a l IH]; intros acc; cbn [foldl foldr].
  - by rw append_empty_r.
  - by rw IH append_assoc.
Qed.

Lemma foldr_append_ext {A B} (f : A → string) (g : B → string) l k :
  f <$> l = g <$> k →
  foldr (fun a rest => f a +:+ rest) "" l = foldr (fun a rest => g a +:+ rest) "" k.
Proof.
  intros Heq.
  by rw -(foldr_fmap String.append "" l f) -(foldr_fmap String.append "" k g) Heq.
Qed.

Lemma foldr_append_chars (l : list ascii) :
  foldr (fun ch rest => String ch "" +:+ rest) "" l = string_of_list_ascii l.
Proof. induction l as [|c l IH]; [done|]. simpl. by rw append_cons IH. Qed.

(** ** Parsing *)

Lemma iter_coords_key : iter_coords = key <$> seq 0 81.
Proof. by vm_compute. Qed.

Lemma key_inj i j : key i = key j → i = j.
Proof.
  intros Heq.
  assert (i mod 9 = j mod 9) by exact (f_equal fst Heq).
  assert (i / 9 = j / 9) by exact (f_equal snd Heq). lia.
Qed.

Lemma ascii_digit_isdigit ch : ascii_digit ch = true → isdigit ch = true.
Proof. rw /ascii_digit /isdigit. cbn zeta. by intros ->. Qed.

Lemma pretty_digit ch :
  ascii_digit ch = true →
  pretty (Z.of_nat (nat_of_ascii ch - 48)) = String ch "".
Proof.
  destruct ch as [[] [] [] [] [] [] [] []]; by vm_compute.
Qed.

Lemma cell_str_parsed cell ch :
  parses ch → value cell = parsed_value ch →
  cell_str cell = String (saved_char ch) "".
Proof.
  rw /parses /cell_str /parsed_value /saved_char. intros Hp ->.
  destruct (isdigit ch); [|done]. by apply pretty_digit, Hp.
Qed.

Lemma load_loop_cons_parses b i ch rest :
  parses ch →
  load_loop b ((i, ch) :: rest)
  = load_loop (alter (set_value (parsed_value ch)) (key i) b) rest.
Proof.
  rw /parses /parsed_value. intros Hp. cbn [load_loop].
  destruct (isdigit ch); [|done].
  by rw /int -/(ascii_digit ch) Hp.
Qed.

Lemma load_loop_spec l b :
  well_formed b = true →
  Forall (fun ic : nat * ascii => parses ic.2 ∧ ic.1 < 81) l →
  NoDup l.*1 →
  ∃ b', load_loop b l = (b', Ok tt) ∧ well_formed b' = true
        ∧ (∀ i ch, (i, ch) ∈ l → value (b' !!! key i) = parsed_value ch)
        ∧ (∀ q, (∀ i ch, (i, ch) ∈ l → key i ≠ q) →
                value (b' !!! q) = value (b !!! q)).
Proof.
  revert b. induction l as [|[i ch] rest IH]; intros b Hwf Hall Hnd.
  { exists b. repeat split; try done. by intros ?? ?%elem_of_nil. }
  apply Forall_cons in Hall as [[Hp Hi] Hall]. cbn in Hp, Hi.
  rw fmap_cons in Hnd. apply NoDup_cons in Hnd as [Hni Hnd]. cbn in Hni.
  rw load_loop_cons_parses //.
  set (b1 := alter (set_value (parsed_value ch)) (key i) b).
  destruct (IH b1) as (b' & Hrun & Hwf' & Hset & Hframe); [|done..|].
  { by apply well_formed_alter. }
  destruct (well_formed_lookup b (i mod 9) (i / 9) Hwf) as (c & Hc & _); [lia..|].
  exists b'. split; [done|]. split; [done|]. split.
  - intros j cj [[= -> ->]|Hin]%elem_of_cons; [|by apply Hset].
    rw Hframe.
    + rw /b1 (value_set_value b (key i) (key i) _ c) //. by case_decide.
    + intros j cj Hin Hk%key_inj. subst j. apply Hni.
      apply list_elem_of_fmap. by exists (i, cj).
  - intros q Hq. rw Hframe.
    + rw /b1 (value_set_value b (key i) q _ c) //.
      case_decide as Hk; [|done]. exfalso. apply (Hq i ch); [by left|done].
    + intros j cj Hin. apply (Hq j cj). by right.
Qed.

Lemma load_loop_Ok_parses l b b' :
  load_loop b l = (b', Ok tt) → Forall (fun ic : nat * ascii => parses ic.2) l.
Proof.
  revert b. induction l as [|[i ch] rest IH]; intros b Hrun; [done|].
  cbn [load_loop] in Hrun. rw /int -/(ascii_digit ch) in Hrun.
  apply Forall_cons. rw /parses /=.
  destruct (isdigit ch), (ascii_digit ch); try done; split; eauto.
Qed.

Lemma enumerate_elem s i ch :
  (i, ch) ∈ enumerate s ↔ list_ascii_of_string s !! i = Some ch.
Proof.
  rw /enumerate elem_of_lookup_imap. split.
  - by intros (j & c & [= -> ->] & ?).
  - intros ?. by exists i, ch.
Qed.

Lemma NoDup_enumerate s : NoDup (enumerate s).*1.
Proof.
  apply NoDup_alt. intros i j k.
  rw /enumerate !list_lookup_fmap !list_lookup_imap.
  destruct (list_ascii_of_string s !! i), (list_ascii_of_string s !! j);
    cbn; congruence.
Qed.

Lemma load_from_string_length b s :
  String.length s ≠ 81 →
  load_from_string b s = (b, Raise (BoardException "Invalid board string length")).
Proof. intros Hlen. by rw /load_from_string bool_decide_eq_true_2. Qed.

Lemma load_from_string_parses b s :
  well_formed b = true → String.length s = 81 →
  Forall parses (list_ascii_of_string s) →
  ∃ b', load_from_string b s = (b', Ok tt) ∧ well_formed b' = true
        ∧ ∀ i ch, list_ascii_of_string s !! i = Some ch →
                  value (b' !!! key i) = parsed_value ch.
Proof.
  intros Hwf Hlen Hall. rw /load_from_string bool_decide_eq_false_2; [|by intros []].
  destruct (load_loop_spec (enumerate s) (clear_board b))
    as (b' & Hrun & Hwf' & Hset & _).
  - by apply well_formed_clear_board.
  - apply Forall_forall. intros [i ch] Hin%enumerate_elem. cbn. split.
    + rw Forall_forall in Hall. apply Hall. by eapply list_elem_of_lookup_2.
    + apply lookup_lt_Some in Hin. by rw length_list_ascii_of_string Hlen in Hin.
  - apply NoDup_enumerate.
  - exists b'. repeat split; try done. intros i ch Hin. by apply Hset, enumerate_elem.
Qed.

Lemma load_from_string_Ok_parses b s b' :
  load_from_string b s = (b', Ok tt) →
  String.length s = 81 ∧ Forall parses (list_ascii_of_string s).
Proof.
  rw /load_from_string. case_bool_decide as Hlen; [done|].
  intros Hall%load_loop_Ok_parses. split; [by destruct (decide (String.length s = 81))|].
  apply Forall_forall. intros ch (i & Hi)%list_elem_of_lookup_1.
  rw Forall_forall in Hall. by apply (Hall (i, ch)), enumerate_elem.
Qed.

Lemma save_to_string_parsed b' s :
  String.length s = 81 → Forall parses (list_ascii_of_string s) →
  (∀ i ch, list_ascii_of_string s !! i = Some ch →
           value (b' !!! key i) = parsed_value ch) →
  save_to_string b'
  = string_of_list_ascii (saved_char <$> list_ascii_of_string s).
Proof.
  intros Hlen Hall Hval. rw -length_list_ascii_of_string in Hlen.
  rw /save_to_string foldl_append /values /iter_cells iter_coords_key.
  change (String.append "" ?x) with x. rw -foldr_append_chars.
  rw (foldr_fmap _ _ _ saved_char). apply foldr_append_ext.
  change (map ?f ?l) with (f <$> l).
  apply list_eq. intros i. rw !list_lookup_fmap.
  destruct (decide (i < 81)) as [Hi|Hi].
  - rw lookup_seq_lt //=.
    destruct (lookup_lt_is_Some_2 (list_ascii_of_string s) i) as [ch Hch]; [lia|].
    rw Hch /=. f_equal. apply cell_str_parsed; [|by apply Hval].
    rw Forall_forall in Hall. apply Hall. by eapply list_elem_of_lookup_2.
  - rw lookup_seq_ge; [|lia]. by rw lookup_ge_None_2; [|lia].
Qed.

(** ** Claims about parsing and serializing *)

(** C3.  For a string [s] of 81 characters, each a decimal digit or ['.'],
    loading [s] into a board succeeds and saving that board gives back
    [s]. *)
Theorem save_load_roundtrip b s :
  well_formed b = true →
  String.length s = 81 →
  Forall (fun ch => ascii_digit ch = true ∨ ch = "."%char) (list_ascii_of_string s) →
  ∃ b', load_from_string b s = (b', Ok tt) ∧ save_to_string b' = s.
Proof.
  intros Hwf Hlen Hchars.
  assert (Hparses : Forall parses (list_ascii_of_string s)).
  { eapply Forall_impl; [done|]. intros ch [Hd| ->] ?; [done|]. by vm_compute. }
  destruct (load_from_string_parses b s Hwf Hlen Hparses) as (b' & Hrun & _ & Hval).
  exists b'. split; [done|].
  rw (save_to_string_parsed b' s) //.
  rw -{2}(string_of_list_ascii_of_string s). f_equal.
  rw -{2}(list_fmap_id (list_ascii_of_string s)).
  apply list_fmap_ext. intros i ch Hch.
  rw Forall_forall in Hchars.
  destruct (Hchars ch) as [Hd| ->]; [by eapply list_elem_of_lookup_2| |done].
  by rw /saved_char (ascii_digit_isdigit ch Hd).
Qed.

Lemma save_load_roundtrip_witness :
  ∃ b', load_from_string Board_new puzzle = (b', Ok tt) ∧ save_to_string b' = puzzle.
Proof.
  apply save_load_roundtrip.
  - vm_compute. reflexivity.
  - vm_compute. reflexivity.
  - apply (bool_decide_unpack _). vm_compute. reflexivity.
Defined.

(** When loading an 81-character string succeeds, a character ['0'] at
    index [i] leaves the assigned value 0 in the cell of that index, and
    saving the board writes ['0'] at index [i]: ['0'] is a digit, not a
    mark for an unassigned cell. *)
Theorem load_zero_is_value b s b' i :
  well_formed b = true →
  String.length s = 81 →
  load_from_string b s = (b', Ok tt) →
  String.get i s = Some "0"%char →
  get_cell b' (i mod 9) (i / 9) = Some 0%Z
  ∧ String.get i (save_to_string b') = Some "0"%char.
Proof.
  intros Hwf Hlen Hrun Hget.
  destruct (load_from_string_Ok_parses b s b' Hrun) as [_ Hparses].
  destruct (load_from_string_parses b s Hwf Hlen Hparses) as (b2 & Hrun2 & _ & Hval).
  assert (b2 = b') as -> by congruence.
  rw get_list_ascii_of_string in Hget. split.
  - by rw /get_cell -/(key i) (Hval i _ Hget).
  - rw (save_to_string_parsed b' s) // get_string_of_list_ascii.
    by rw list_lookup_fmap Hget.
Qed.

Lemma load_zero_is_value_witness :
  get_cell (load_from_string Board_new zero_string).1 (0 mod 9) (0 / 9) = Some 0%Z
  ∧ String.get 0 (save_to_string (load_from_string Board_new zero_string).1)
    = Some "0"%char.
Proof.
  apply (load_zero_is_value Board_new zero_string).
  - vm_compute. reflexivity.
  - vm_compute. reflexivity.
  - vm_compute. reflexivity.
  - vm_compute. reflexivity.
Defined.

(** C9.  On the 81-character string with the superscript two at index 0
    and ['0'] at index 1, loading raises [ValueError] at index 0, also
    through the constructor: the ['0'] is never read, its cell (1, 0) stays
    unassigned as [clear_board] left it, and saving the board writes ['.']
    at index 1.  So not every 81-character string has its ['0'] loaded as
    the value 0. *)
Theorem load_zero_after_superscript :
  String.length superscript_zero_string = 81
  ∧ String.get 1 superscript_zero_string = Some "0"%char
  ∧ (load_from_string Board_new superscript_zero_string).2
    = Raise (ValueError (String superscript_two ""))
  ∧ Board_init (Some superscript_zero_string)
    = Raise (ValueError (String superscript_two ""))
  ∧ get_cell (load_from_string Board_new superscript_zero_string).1 (1 mod 9) (1 / 9)
    = None
  ∧ String.get 1 (save_to_string (load_from_string Board_new superscript_zero_string).1)
    = Some "."%char.
Proof. repeat split; vm_compute; reflexivity. Qed.

(** C6.  The 81-character string that starts with the superscript two is
    not loaded: [isdigit] accepts the character and [int] raises
    [ValueError], also through the constructor. *)
Theorem load_from_string_superscript :
  String.length superscript_string = 81
  ∧ (load_from_string Board_new superscript_string).2
    = Raise (ValueError (String superscript_two ""))
  ∧ Board_init (Some superscript_string)
    = Raise (ValueError (String superscript_two "")).
Proof. by vm_compute. Qed.

(** The part of the length contract that holds: every other length is
    rejected before the board is touched, and a string of 81 characters is
    loaded exactly when [int] accepts each of its [isdigit] characters. *)
Lemma load_from_string_length_81 b s :
  well_formed b = true → String.length s = 81 →
  (load_from_string b s).2 = Ok tt ↔ Forall parses (list_ascii_of_string s).
Proof.
  intros Hwf Hlen. split.
  - destruct (load_from_string b s) as [b' r] eqn:Hrun. cbn. intros ->.
    by destruct (load_from_string_Ok_parses b s b' Hrun).
  - intros Hp.
    by destruct (load_from_string_parses b s Hwf Hlen Hp) as (b' & -> & _).
Qed.

Lemma Board_init_length s :
  String.length s ≠ 81 →
  Board_init (Some s) = Raise (BoardException "Invalid board string length").
Proof. intros Hlen. by rw /Board_init load_from_string_length. Qed.

(** C8.  The 81-character string made of ["11"] and 79 dots is loaded, and
    the board it gives is not valid: its first row holds 1 twice. *)
Theorem two_ones_invalid :
  String.length two_ones = 81
  ∧ Board_init (Some two_ones) = Ok two_ones_board
  ∧ is_valid two_ones_board = false
  ∧ get_row two_ones_board 0 = [1; 1]%Z.
Proof. repeat split; vm_compute; reflexivity. Qed.

(** The string of the scenario has 89 characters and is rejected. *)
Lemma two_ones_89_rejected :
  String.length two_ones_89 = 89
  ∧ Board_init (Some two_ones_89)
    = Raise (BoardException "Invalid board string length")
  ∧ ¬ ∃ b, Board_init (Some two_ones_89) = Ok b ∧ is_valid b = false.
Proof.
  split; [done|]. split; [by apply Board_init_length|].
  intros (b & Hb & _). by rw Board_init_length in Hb.
Qed.

(** ** Claims about the grid *)

(** C4.  [is_valid] returns [False] exactly when some row, some column or
    some 3x3 block holds the same assigned value at two distinct cells. *)
Theorem is_valid_false_iff_repeated b :
  well_formed b = true →
  is_valid b = false
  ↔ ∃ i, i < 9 ∧ (repeated_value b (in_row i)
                  ∨ repeated_value b (in_column i)
                  ∨ repeated_value b (in_block i)).
Proof. intros _. apply is_valid_false_iff. Qed.

Lemma is_valid_false_iff_repeated_witness :
  is_valid two_ones_board = false
  ↔ ∃ i, i < 9 ∧ (repeated_value two_ones_board (in_row i)
                  ∨ repeated_value two_ones_board (in_column i)
                  ∨ repeated_value two_ones_board (in_block i)).
Proof. apply is_valid_false_iff_repeated. vm_compute. reflexivity. Defined.

(** C5.  On a board that is not valid [is_solved] raises
    [BoardException]; on a valid board it returns whether each of the 81
    cells is assigned. *)
Theorem is_solved_spec b :
  well_formed b = true →
  (is_valid b = false →
   is_solved b = Raise (BoardException "The board is not valid."))
  ∧ (is_valid b = true →
     ∃ r, is_solved b = Ok r
          ∧ (r = true ↔ ∀ x y, x < 9 → y < 9 → get_cell b x y ≠ None)).
Proof.
  intros _. rw /is_solved. split; intros ->; [done|]. cbn [negb].
  eexists. split; [done|]. rw forallb_forall. split.
  - intros Hall x y Hx Hy. eapply bool_decide_eq_true, Hall.
    apply list_elem_of_In, list_elem_of_fmap. exists (x, y).
    split; [done|]. by apply elem_of_iter_coords.
  - intros Hall cell Hin%list_elem_of_In.
    apply list_elem_of_fmap in Hin as ([x y] & -> & [??]%elem_of_iter_coords).
    apply bool_decide_eq_true. by apply Hall.
Qed.

Lemma is_solved_spec_witness :
  (is_valid two_ones_board = false →
   is_solved two_ones_board = Raise (BoardException "The board is not valid."))
  ∧ (is_valid two_ones_board = true →
     ∃ r, is_solved two_ones_board = Ok r
          ∧ (r = true ↔ ∀ x y, x < 9 → y < 9 → get_cell two_ones_board x y ≠ None)).
Proof. apply is_solved_spec. vm_compute. reflexivity. Defined.

(** C7.  After [clear_board] every cell of the grid is unassigned and its
    set of possible values is empty: [cell.possibles.clear()] empties the
    set, where [Cell.clear] and the constructor store 1..9. *)
Theorem clear_board_possibles_empty b x y :
  well_formed b = true → x < 9 → y < 9 →
  value (clear_board b !!! (x, y)) = None
  ∧ possibles (clear_board b !!! (x, y)) = ∅
  ∧ possibles (clear_board b !!! (x, y)) ≠ full_possibles
  ∧ possibles (Cell_clear (b !!! (x, y))) = full_possibles.
Proof.
  intros Hwf Hx Hy. rw clear_board_lookup_total; [|done..].
  split; [done|]. split; [done|]. split; [|done].
  by apply (bool_decide_unpack _).
Qed.

Lemma clear_board_possibles_empty_witness :
  value (clear_board Board_new !!! (0, 0)) = None
  ∧ possibles (clear_board Board_new !!! (0, 0)) = ∅
  ∧ possibles (clear_board Board_new !!! (0, 0)) ≠ full_possibles
  ∧ possibles (Cell_clear (Board_new !!! (0, 0))) = full_possibles.
Proof.
  apply clear_board_possibles_empty.
  - vm_compute. reflexivity.
  - lia.
  - lia.
Defined.

(** ** Propagation *)

Lemma get_possible_values_same_values b p :
  same_values b (get_possible_values b p).1.
Proof.
  intros q. rw /get_possible_values.
  destruct (value (b !!! p)); cbn [fst]; by rw value_lookup_total_alter.
Qed.

Lemma get_possible_values_well_formed b p :
  well_formed b = true → well_formed (get_possible_values b p).1 = true.
Proof.
  intros Hwf. rw /get_possible_values.
  destruct (value (b !!! p)); cbn [fst]; by apply well_formed_alter.
Qed.

Lemma get_possible_values_stored b p c :
  b !! p = Some c →
  possibles ((get_possible_values b p).1 !!! p) = (get_possible_values b p).2.
Proof.
  intros Hc. rw /get_possible_values.
  destruct (value (b !!! p)); cbn [fst snd]; by rw lookup_total_alter_eq Hc.
Qed.

Lemma get_possible_values_ext b b' x y :
  well_formed b = true → well_formed b' = true → same_values b b' →
  x < 9 → y < 9 →
  (get_possible_values b (x, y)).2 = (get_possible_values b' (x, y)).2.
Proof.
  intros Hwf Hwf' Hsame Hx Hy. rw /get_possible_values -(Hsame (x, y)).
  destruct (well_formed_lookup_total b x y Hwf Hx Hy) as (_ & Hbx & Hby).
  destruct (well_formed_lookup_total b' x y Hwf' Hx Hy) as (_ & Hbx' & Hby').
  destruct (value (b !!! (x, y))); [done|]. cbn [snd].
  rw /get_chunk_number Hbx Hby Hbx' Hby'.
  by rw (get_row_ext b b') // (get_column_ext b b') // (get_chunk_ext b b').
Qed.

Lemma filter_iff {A} (P Q : A → Prop) `{!∀ a, Decision (P a)}
    `{!∀ a, Decision (Q a)} (l : list A) :
  (∀ a, P a ↔ Q a) → filter P l = filter Q l.
Proof.
  intros Hiff. induction l as [|a l IH]; [done|].
  rw !filter_cons IH.
  destruct (decide (P a)) as [Hp|Hp], (decide (Q a)) as [Hq|Hq]; try done.
  - by apply Hiff in Hp.
  - by apply Hiff in Hq.
Qed.

Lemma get_unsolved_count_ext b b' :
  same_values b b' → get_unsolved_count b = get_unsolved_count b'.
Proof.
  intros Hsame. rw !get_unsolved_count_coords. f_equal.
  apply filter_iff. intros p. by rw Hsame.
Qed.

Lemma stuck_ext b b' :
  well_formed b = true → well_formed b' = true → same_values b b' →
  stuck b = stuck b'.
Proof.
  intros Hwf Hwf' Hsame. rw /stuck (get_unsolved_count_ext b b') //. f_equal.
  apply forallb_ext_in. intros [x y] [??]%elem_of_iter_coords.
  by rw Hsame (get_possible_values_ext b b').
Qed.

Lemma solve_cell_stuck b x y :
  well_formed b = true → is_valid b = true → stuck b = true →
  x < 9 → y < 9 →
  ∃ b', solve_cell b (x, y) = (b', Ok tt)
        ∧ well_formed b' = true ∧ same_values b b'.
Proof.
  intros Hwf Hvalid [_ Hstuck]%andb_prop Hx Hy. rw /solve_cell.
  destruct (value (b !!! (x, y))) eqn:Hv.
  { rw Hvalid. by exists b. }
  rw forallb_forall in Hstuck.
  assert (Hsize : (2 <=? size (get_possible_values b (x, y)).2) = true).
  { specialize (Hstuck (x, y)). cbn beta in Hstuck. rw Hv in Hstuck.
    by apply Hstuck, list_elem_of_In, elem_of_iter_coords. }
  apply Nat.leb_le in Hsize.
  destruct (well_formed_lookup b x y Hwf Hx Hy) as (c & Hc & _).
  cbn zeta. rw (get_possible_values_stored b (x, y) c) //.
  destruct (size _ =? 0) eqn:H0; [apply Nat.eqb_eq in H0; lia|].
  destruct (size _ =? 1) eqn:H1; [apply Nat.eqb_eq in H1; lia|].
  rw -(is_valid_ext b); [|apply get_possible_values_same_values].
  rw Hvalid. eexists. split; [done|]. split.
  - by apply get_possible_values_well_formed.
  - apply get_possible_values_same_values.
Qed.

Lemma solve_pass_stuck ps b :
  well_formed b = true → is_valid b = true → stuck b = true →
  (∀ p, p ∈ ps → p ∈ iter_coords) →
  ∃ b', solve_pass b ps = (b', Ok tt)
        ∧ well_formed b' = true ∧ same_values b b'.
Proof.
  revert b. induction ps as [|[x y] ps IH]; intros b Hwf Hvalid Hstuck Hps.
  { by exists b. }
  assert ((x, y) ∈ iter_coords) as [Hx Hy]%elem_of_iter_coords.
  { apply Hps. by left. }
  destruct (solve_cell_stuck b x y) as (b1 & Hrun1 & Hwf1 & Hsame1); [done..|].
  destruct (IH b1) as (b' & Hrun & Hwf' & Hsame); [done| | | |].
  - by rw -(is_valid_ext b b1).
  - by rw -(stuck_ext b b1).
  - intros p Hp. apply Hps. by right.
  - exists b'. cbn [solve_pass]. rw Hrun1. split; [done|]. split; [done|].
    intros q. by rw Hsame1.
Qed.

(** ** Claim about the propagation solver *)

(** C1.  On a valid board on which deduction is stuck, [solve] neither
    returns nor raises: however many passes of the [while True] loop are
    run, the loop is still running.  No pass changes a value, so the count
    of unsolved cells never reaches 0, and nothing detects the stall. *)
Theorem solve_stuck_never_returns b :
  well_formed b = true → is_valid b = true → stuck b = true →
  ∀ fuel iterations, solve fuel iterations b = None.
Proof.
  intros Hwf Hvalid Hstuck fuel. revert b Hwf Hvalid Hstuck.
  induction fuel as [|fuel IH]; intros b Hwf Hvalid Hstuck iterations; [done|].
  cbn [solve].
  destruct (solve_pass_stuck iter_coords b) as (b' & -> & Hwf' & Hsame); [done..|].
  assert (Hstuck' : stuck b' = true) by by rw -(stuck_ext b b').
  cbn zeta. apply andb_prop in Hstuck' as Hcount. destruct Hcount as [Hcount _].
  apply negb_true_iff in Hcount. rw Hcount.
  apply IH; [done| |done]. by rw -(is_valid_ext b b').
Qed.

Lemma solve_stuck_never_returns_witness : solve 1000 1 Board_new = None.
Proof.
  apply solve_stuck_never_returns.
  - vm_compute. reflexivity.
  - vm_compute. reflexivity.
  - vm_compute. reflexivity.
Defined.

(** ** Runs of the model *)

Lemma solve_sudoku_failure_restores_witness :
  ∃ g' b' r, solve_sudoku id_shuffle 82 tt dead_end_board = Some (g', b', r)
             ∧ (r = false →
                b' = dead_end_board
                ∧ ∀ x y, get_cell b' x y = get_cell dead_end_board x y).
Proof.
  apply solve_sudoku_failure_restores.
  - vm_compute. reflexivity.
  - vm_compute. lia.
Defined.

Lemma solve_sudoku_generates_witness :
  ∃ g' b', solve_sudoku id_shuffle 82 tt Board_new = Some (g', b', true)
           ∧ (∀ x y, x < 9 → y < 9 → get_cell b' x y ≠ None)
           ∧ get_unsolved_count b' = 0
           ∧ is_solved b' = Ok true
           ∧ ∀ i, i < 9 →
                  get_row b' i ≡ₚ [1; 2; 3; 4; 5; 6; 7; 8; 9]%Z
                  ∧ get_column b' i ≡ₚ [1; 2; 3; 4; 5; 6; 7; 8; 9]%Z
                  ∧ get_chunk b' i ≡ₚ [1; 2; 3; 4; 5; 6; 7; 8; 9]%Z.
Proof.
  apply (solve_sudoku_generates id_shuffle).
  - intros g l. reflexivity.
  - vm_compute. reflexivity.
  - vm_compute. reflexivity.
  - lia.
Defined.

(** The search on the grid without solution returns [False] and leaves the
    grid as it was. *)
Example solve_sudoku_dead_end :
  is_valid dead_end_board = true
  ∧ solve_sudoku id_shuffle 82 tt dead_end_board = Some (tt, dead_end_board, false).
Proof. split; vm_compute; reflexivity. Qed.

(** With the shuffle that keeps the order, the search on the new board
    writes the grid of [solved_string]. *)
Example solve_sudoku_Board_new :
  match solve_sudoku id_shuffle 82 tt Board_new with
  | Some (_, b, r) => Some (save_to_string b, r)
  | None => None
  end = Some (solved_string, true).
Proof. vm_compute. reflexivity. Qed.

(** [solve] finishes the puzzle of [main.py] in four passes. *)
Example solve_puzzle :
  match solve 4 1 puzzle_board with
  | Some (b, r) => Some (save_to_string b, r)
  | None => None
  end
  = Some ("213479658859162743476538291742913586591687324368254179187345962934726815625891437",
          Ok 4).
Proof. vm_compute. reflexivity. Qed.

(** * More properties of the embedding *)

(** ** Equality, clones and copies *)

Lemma well_formed_clone b : well_formed b = true → well_formed (clone b) = true.
Proof.
  intros [Hall Hsize]%andb_prop. apply andb_true_intro. split.
  - rw forallb_forall in Hall. apply forallb_forall. intros [x y] Hin.
    specialize (Hall _ Hin). cbn beta iota in Hall.
    rw /clone lookup_fmap. by destruct (b !! (x, y)).
  - by rw /clone map_size_fmap.
Qed.

Lemma clone_lookup_total b x y :
  well_formed b = true → x < 9 → y < 9 →
  clone b !!! (x, y) = Cell_clone (b !!! (x, y)).
Proof.
  intros Hwf Hx Hy.
  destruct (well_formed_lookup b x y Hwf Hx Hy) as (c & Hc & _).
  by rw !lookup_total_alt /clone lookup_fmap Hc.
Qed.

Lemma Board_eq_true_iff b other :
  well_formed b = true →
  Board_eq b other = true
  ↔ ∀ x y, x < 9 → y < 9 →
           value (b !!! (x, y)) = value (other !!! (x, y))
           ∧ cell_x (other !!! (x, y)) = x ∧ cell_y (other !!! (x, y)) = y.
Proof.
  intros Hwf. rw /Board_eq forallb_forall. split.
  - intros Hall x y Hx Hy.
    destruct (well_formed_lookup_total b x y Hwf Hx Hy) as (_ & Hbx & Hby).
    assert (Hin : In (b !!! (x, y)) (iter_cells b)).
    { apply list_elem_of_In, list_elem_of_fmap. exists (x, y).
      split; [done|]. by apply elem_of_iter_coords. }
    apply Hall in Hin. rw /Cell_eq Hbx Hby in Hin.
    apply andb_prop in Hin as [[Hv Hx']%andb_prop Hy'].
    apply bool_decide_eq_true in Hv. apply Nat.eqb_eq in Hx', Hy'. done.
  - intros Hall cell Hin%list_elem_of_In.
    apply list_elem_of_fmap in Hin as ([x y] & -> & [Hx Hy]%elem_of_iter_coords).
    destruct (well_formed_lookup_total b x y Hwf Hx Hy) as (_ & Hbx & Hby).
    destruct (Hall x y Hx Hy) as (Hv & Hox & Hoy).
    rw /Cell_eq Hbx Hby Hox Hoy !Nat.eqb_refl. by rw bool_decide_eq_true_2.
Qed.

(** X1. [Board.__eq__] on two boards of the 81 cells returns [True] exactly
    when every cell has the same value in both; the sets of possible values
    take no part. *)
Theorem Board_eq_same_values b other :
  well_formed b = true → well_formed other = true →
  Board_eq b other = true
  ↔ ∀ x y, x < 9 → y < 9 → get_cell b x y = get_cell other x y.
Proof.
  intros Hwf Hwf'. rw Board_eq_true_iff //. split.
  - intros Hall x y Hx Hy. by destruct (Hall x y Hx Hy).
  - intros Hall x y Hx Hy.
    destruct (well_formed_lookup_total other x y Hwf' Hx Hy) as (_ & ? & ?).
    split; [by apply Hall|done].
Qed.

Lemma Board_eq_same_values_witness :
  Board_eq Board_new (clear_board Board_new) = true
  ↔ ∀ x y, x < 9 → y < 9 →
           get_cell Board_new x y = get_cell (clear_board Board_new) x y.
Proof.
  apply Board_eq_same_values.
  - vm_compute. reflexivity.
  - vm_compute. reflexivity.
Defined.

Lemma Board_eq_clone b :
  well_formed b = true →
  Board_eq (clone b) b = true ∧ Board_eq b (clone b) = true.
Proof.
  intros Hwf. pose proof (well_formed_clone b Hwf) as Hwf'.
  split; apply Board_eq_true_iff; try done; intros x y Hx Hy.
  - destruct (well_formed_lookup_total b x y Hwf Hx Hy) as (_ & ? & ?).
    by rw value_clone.
  - destruct (well_formed_lookup_total (clone b) x y Hwf' Hx Hy) as (_ & ? & ?).
    by rw value_clone.
Qed.

(** X2. A clone has the 81 cells, equals the board it was made from (both
    ways round), and does not inherit the possible values: a cloned cell has
    none when it is assigned and all of 1..9 when it is not. *)
Theorem clone_equal_and_reset b :
  well_formed b = true →
  well_formed (clone b) = true
  ∧ Board_eq (clone b) b = true ∧ Board_eq b (clone b) = true
  ∧ ∀ x y, x < 9 → y < 9 →
           get_cell (clone b) x y = get_cell b x y
           ∧ possibles (clone b !!! (x, y))
             = match get_cell b x y with Some _ => ∅ | None => full_possibles end.
Proof.
  intros Hwf. destruct (Board_eq_clone b Hwf) as [H1 H2].
  split; [by apply well_formed_clone|]. split; [done|]. split; [done|].
  intros x y Hx Hy. split; [apply value_clone|].
  by rw clone_lookup_total.
Qed.

Lemma clone_equal_and_reset_witness :
  well_formed (clone two_ones_board) = true
  ∧ Board_eq (clone two_ones_board) two_ones_board = true
  ∧ Board_eq two_ones_board (clone two_ones_board) = true
  ∧ ∀ x y, x < 9 → y < 9 →
           get_cell (clone two_ones_board) x y = get_cell two_ones_board x y
           ∧ possibles (clone two_ones_board !!! (x, y))
             = match get_cell two_ones_board x y with
               | Some _ => ∅
               | None => full_possibles
               end.
Proof. apply clone_equal_and_reset. vm_compute. reflexivity. Defined.

(** X3. After [copy_from] the board equals the board it copied, whatever it
    held before, and has the 81 cells. *)
Theorem copy_from_equal self other :
  well_formed other = true →
  well_formed (copy_from self other) = true
  ∧ Board_eq (copy_from self other) other = true
  ∧ Board_eq other (copy_from self other) = true.
Proof.
  intros Hwf. destruct (Board_eq_clone other Hwf) as [H1 H2].
  split; [by apply well_formed_clone|]. done.
Qed.

Lemma copy_from_equal_witness :
  well_formed (copy_from two_ones_board solved_grid) = true
  ∧ Board_eq (copy_from two_ones_board solved_grid) solved_grid = true
  ∧ Board_eq solved_grid (copy_from two_ones_board solved_grid) = true.
Proof. apply copy_from_equal. vm_compute. reflexivity. Defined.

(** ** Reading and writing one cell *)

(** X4. On a board of the 81 cells, [set_cell] at a coordinate of the grid
    makes [get_cell] and [get_cell_str] there return the value, leaves the
    value of every other cell as it was, and keeps the 81 cells. *)
Theorem set_cell_get_cell b x y v :
  well_formed b = true → x < 9 → y < 9 →
  well_formed (set_cell b x y v) = true
  ∧ get_cell (set_cell b x y v) x y = Some v
  ∧ (∀ blank, get_cell_str (set_cell b x y v) x y blank = pretty v)
  ∧ ∀ x' y', (x', y') ≠ (x, y) →
             get_cell (set_cell b x y v) x' y' = get_cell b x' y'.
Proof.
  intros Hwf Hx Hy.
  destruct (well_formed_lookup b x y Hwf Hx Hy) as (c & Hc & _).
  assert (Hget : get_cell (set_cell b x y v) x y = Some v).
  { rw /get_cell /set_cell (value_set_value b (x, y) (x, y) (Some v) c) //.
    by case_decide. }
  split; [by apply well_formed_alter|]. split; [done|]. split.
  - intros blank. rw /get_cell_str. by rw /get_cell in Hget; rw Hget.
  - intros x' y' Hne.
    rw /get_cell /set_cell (value_set_value b (x, y) (x', y') (Some v) c) //.
    case_decide; [congruence|done].
Qed.

Lemma set_cell_get_cell_witness :
  well_formed (set_cell Board_new 0 0 5) = true
  ∧ get_cell (set_cell Board_new 0 0 5) 0 0 = Some 5%Z
  ∧ (∀ blank, get_cell_str (set_cell Board_new 0 0 5) 0 0 blank = pretty 5%Z)
  ∧ ∀ x' y', (x', y') ≠ (0, 0) →
             get_cell (set_cell Board_new 0 0 5) x' y' = get_cell Board_new x' y'.
Proof.
  apply set_cell_get_cell.
  - vm_compute. reflexivity.
  - lia.
  - lia.
Defined.

(** ** Rows, columns and blocks *)

Lemma elem_of_get_row b y v :
  v ∈ get_row b y ↔ ∃ x, x < 9 ∧ value (b !!! (x, y)) = Some v.
Proof.
  rw /get_row list_elem_of_omap. split.
  - intros (x & Hx%elem_of_seq & Hv). exists x. split; [lia|done].
  - intros (x & Hx & Hv). exists x. split; [apply elem_of_seq; lia|done].
Qed.

Lemma elem_of_get_column b x v :
  v ∈ get_column b x ↔ ∃ y, y < 9 ∧ value (b !!! (x, y)) = Some v.
Proof.
  rw /get_column list_elem_of_omap. split.
  - intros (y & Hy%elem_of_seq & Hv). exists y. split; [lia|done].
  - intros (y & Hy & Hv). exists y. split; [apply elem_of_seq; lia|done].
Qed.

Lemma elem_of_get_chunk b i v :
  i < 9 →
  v ∈ get_chunk b i
  ↔ ∃ x y, x < 9 ∧ y < 9 ∧ (y / 3) * 3 + x / 3 = i ∧ value (b !!! (x, y)) = Some v.
Proof.
  intros Hi. rw /get_chunk list_elem_of_omap. split.
  - intros ([x y] & Hp & Hv). apply elem_of_chunk_coords in Hp; [|done].
    exists x, y. by destruct Hp as (? & ? & ?).
  - intros (x & y & Hx & Hy & Hc & Hv). exists (x, y).
    split; [by apply elem_of_chunk_coords|done].
Qed.

Lemma chunk_number_lt x y : x < 9 → y < 9 → (y / 3) * 3 + x / 3 < 9.
Proof. lia. Qed.

(** X5. A value assigned to a cell of the grid is listed by [get_row] for
    the cell's row, by [get_column] for its column and by [get_chunk] for
    the chunk that the cell's [get_chunk_number] names; and the three lists
    hold nothing but values of cells of that row, column and chunk. *)
Theorem assigned_value_listed b x y v :
  well_formed b = true → x < 9 → y < 9 →
  (get_cell b x y = Some v →
   v ∈ get_row b y ∧ v ∈ get_column b x
   ∧ v ∈ get_chunk b (get_chunk_number (b !!! (x, y))))
  ∧ (v ∈ get_row b y → ∃ x', x' < 9 ∧ get_cell b x' y = Some v)
  ∧ (v ∈ get_column b x → ∃ y', y' < 9 ∧ get_cell b x y' = Some v)
  ∧ (v ∈ get_chunk b (get_chunk_number (b !!! (x, y))) →
     ∃ x' y', x' < 9 ∧ y' < 9 ∧ x' / 3 = x / 3 ∧ y' / 3 = y / 3
              ∧ get_cell b x' y' = Some v).
Proof.
  intros Hwf Hx Hy.
  destruct (well_formed_lookup_total b x y Hwf Hx Hy) as (_ & Hbx & Hby).
  rw /get_chunk_number Hbx Hby /get_cell.
  pose proof (chunk_number_lt x y Hx Hy) as Hi.
  split; [|split; [|split]].
  - intros Hv. split; [|split].
    + apply elem_of_get_row. by exists x.
    + apply elem_of_get_column. by exists y.
    + apply elem_of_get_chunk; [done|]. by exists x, y.
  - by intros ?%elem_of_get_row.
  - by intros ?%elem_of_get_column.
  - intros (x' & y' & Hx' & Hy' & Hc & Hv)%elem_of_get_chunk; [|done].
    exists x', y'. repeat split; try done; lia.
Qed.

Lemma assigned_value_listed_witness :
  (get_cell two_ones_board 1 0 = Some 1%Z →
   1%Z ∈ get_row two_ones_board 0 ∧ 1%Z ∈ get_column two_ones_board 1
   ∧ 1%Z ∈ get_chunk two_ones_board (get_chunk_number (two_ones_board !!! (1, 0))))
  ∧ (1%Z ∈ get_row two_ones_board 0 →
     ∃ x', x' < 9 ∧ get_cell two_ones_board x' 0 = Some 1%Z)
  ∧ (1%Z ∈ get_column two_ones_board 1 →
     ∃ y', y' < 9 ∧ get_cell two_ones_board 1 y' = Some 1%Z)
  ∧ (1%Z ∈ get_chunk two_ones_board (get_chunk_number (two_ones_board !!! (1, 0))) →
     ∃ x' y', x' < 9 ∧ y' < 9 ∧ x' / 3 = 1 / 3 ∧ y' / 3 = 0 / 3
              ∧ get_cell two_ones_board x' y' = Some 1%Z).
Proof.
  apply assigned_value_listed.
  - vm_compute. reflexivity.
  - lia.
  - lia.
Defined.

(** ** Validity and solvedness *)

Lemma unsolved_count_0_complete b : get_unsolved_count b = 0 ↔ complete b.
Proof.
  split; [|apply complete_unsolved_count].
  rw get_unsolved_count_coords. intros Hlen x y Hx Hy Hnone.
  apply length_zero_iff_nil in Hlen.
  assert (Hin : (x, y) ∈ filter (fun p => value (b !!! p) = None) iter_coords).
  { apply list_elem_of_filter. split; [done|]. by apply elem_of_iter_coords. }
  rw Hlen in Hin. by apply elem_of_nil in Hin.
Qed.

Lemma is_solved_Ok_true b :
  is_solved b = Ok true ↔ is_valid b = true ∧ complete b.
Proof.
  split.
  - rw /is_solved. destruct (is_valid b); [|done]. cbn [negb].
    intros Heq. split; [done|]. intros x y Hx Hy.
    assert (Hall : forallb (fun cell => bool_decide (value cell ≠ None)) (values b)
                   = true) by congruence.
    rw forallb_forall in Hall. eapply bool_decide_eq_true, Hall.
    apply list_elem_of_In, list_elem_of_fmap. exists (x, y).
    split; [done|]. by apply elem_of_iter_coords.
  - intros [??]. by apply complete_is_solved.
Qed.

(** X6. [is_solved] returns [True] exactly when the board is valid and
    [get_unsolved_count] is 0, and the solved and the unsolved cells
    together are the 81 cells. *)
Theorem is_solved_unsolved_count b :
  well_formed b = true →
  (is_solved b = Ok true ↔ is_valid b = true ∧ get_unsolved_count b = 0)
  ∧ get_unsolved_count b + List.length (get_solved_cells b) = 81.
Proof.
  intros _. split.
  - by rw is_solved_Ok_true unsolved_count_0_complete.
  - rw /get_unsolved_count /get_unsolved_cells /get_solved_cells.
    assert (Hlen : List.length (values b) = 81) by done.
    rw -Hlen. generalize (values b). intros l.
    induction l as [|c l IH]; [done|].
    rw !filter_cons.
    destruct (decide (value c = None)) as [Hc|Hc],
             (decide (value c ≠ None)) as [Hc'|Hc']; cbn; try lia; try done.
Qed.

Lemma is_solved_unsolved_count_witness :
  (is_solved solved_grid = Ok true
   ↔ is_valid solved_grid = true ∧ get_unsolved_count solved_grid = 0)
  ∧ get_unsolved_count solved_grid + List.length (get_solved_cells solved_grid) = 81.
Proof. apply is_solved_unsolved_count. vm_compute. reflexivity. Defined.

(** X7. A board of the 81 cells without any assigned value is valid and
    [is_solved] returns [False] for it, without raising. *)
Theorem unassigned_board_valid b :
  well_formed b = true → get_unsolved_count b = 81 →
  is_valid b = true ∧ is_solved b = Ok false.
Proof.
  intros _ Hcount.
  assert (Hvalid : is_valid b = true).
  { apply is_valid_true_iff. intros (i & Hi & Hrep).
    assert (Hno : ∀ group : nat * nat → Prop,
               (∀ p, group p → p.1 < 9 ∧ p.2 < 9) → ¬ repeated_value b group).
    { intros group Hgrid ([x y] & q & v & H1 & _ & _ & Hv & _).
      destruct (Hgrid _ H1). by rw (unsolved_count_81 b x y) in Hv. }
    destruct Hrep as [?|[?|?]]; (eapply Hno; [|done]);
      intros [x y]; rw /in_row /in_column /in_block /=; lia. }
  split; [done|].
  destruct (is_solved b) as [[]|e] eqn:Hs.
  - apply is_solved_Ok_true in Hs as [_ Hc].
    apply unsolved_count_0_complete in Hc. lia.
  - done.
  - rw /is_solved Hvalid in Hs. done.
Qed.

Lemma unassigned_board_valid_witness :
  is_valid (clear_board two_ones_board) = true
  ∧ is_solved (clear_board two_ones_board) = Ok false.
Proof.
  apply unassigned_board_valid.
  - vm_compute. reflexivity.
  - vm_compute. reflexivity.
Defined.

(** X8. Validity survives taking assignments away: when every value that
    [b] holds on the grid is also held by the valid board [b'], then [b] is
    valid.  So clearing cells of a valid board leaves a valid board, and an
    assignment never repairs a board that is not valid. *)
Theorem is_valid_of_fewer_assignments b b' :
  well_formed b = true → well_formed b' = true →
  (∀ x y v, x < 9 → y < 9 → get_cell b x y = Some v → get_cell b' x y = Some v) →
  is_valid b' = true → is_valid b = true.
Proof. intros _ _ Hext. by apply extends_is_valid. Qed.

Lemma is_valid_of_fewer_assignments_witness : is_valid Board_new = true.
Proof.
  apply (is_valid_of_fewer_assignments Board_new solved_grid).
  - vm_compute. reflexivity.
  - vm_compute. reflexivity.
  - intros x y v Hx Hy Hv.
    assert (get_cell Board_new x y = None) as Hnone.
    { apply unsolved_count_81; [|done..]. vm_compute. reflexivity. }
    congruence.
  - vm_compute. reflexivity.
Defined.

(** ** Possible values *)

Lemma elem_of_full_possibles v : v ∈ full_possibles ↔ (1 ≤ v ≤ 9)%Z.
Proof. rw /full_possibles elem_of_list_to_set elem_of_seqZ. lia. Qed.

Lemma get_possible_values_unassigned b x y v :
  well_formed b = true → x < 9 → y < 9 → value (b !!! (x, y)) = None →
  v ∈ (get_possible_values b (x, y)).2 ↔ (1 ≤ v ≤ 9)%Z ∧ ¬ seen_from b x y v.
Proof.
  intros Hwf Hx Hy Hnone.
  destruct (well_formed_lookup_total b x y Hwf Hx Hy) as (_ & Hbx & Hby).
  rw /get_possible_values Hnone. cbn [snd].
  rw /get_chunk_number Hbx Hby /seen_from.
  rw elem_of_difference elem_of_full_possibles !elem_of_union !elem_of_list_to_set.
  tauto.
Qed.

Lemma group_seen b x y i q v :
  x < 9 → y < 9 → i < 9 →
  in_row i (x, y) ∧ in_row i q
  ∨ in_column i (x, y) ∧ in_column i q
  ∨ in_block i (x, y) ∧ in_block i q →
  value (b !!! q) = Some v → seen_from b x y v.
Proof.
  intros Hx Hy Hi Hgroup Hv. destruct q as [x' y']. rw /seen_from.
  destruct Hgroup as [[Hp Hq]|[[Hp Hq]|[Hp Hq]]].
  - left. destruct Hp as [_ Hp], Hq as [Hq1 Hq2]. cbn [fst snd] in Hp, Hq1, Hq2.
    apply elem_of_get_row. exists x'. split; [done|]. by rw Hp -Hq2.
  - right; left. destruct Hp as [Hp _], Hq as [Hq1 Hq2]. cbn [fst snd] in Hp, Hq1, Hq2.
    apply elem_of_get_column. exists y'. split; [done|]. by rw Hp -Hq1.
  - right; right. destruct Hp as (_ & _ & Hp), Hq as (Hq1 & Hq2 & Hq3).
    cbn [fst snd] in Hp, Hq1, Hq2, Hq3.
    apply elem_of_get_chunk; [by apply chunk_number_lt|].
    exists x', y'. repeat split; try done. lia.
Qed.

Lemma seen_group b x y v :
  x < 9 → y < 9 → seen_from b x y v →
  ∃ i q, i < 9 ∧ value (b !!! q) = Some v
         ∧ (in_row i (x, y) ∧ in_row i q
            ∨ in_column i (x, y) ∧ in_column i q
            ∨ in_block i (x, y) ∧ in_block i q).
Proof.
  intros Hx Hy [Hr|[Hc|Hk]].
  - apply elem_of_get_row in Hr as (x' & Hx' & Hv).
    exists y, (x', y). split; [done|]. split; [done|]. by left.
  - apply elem_of_get_column in Hc as (y' & Hy' & Hv).
    exists x, (x, y'). split; [done|]. split; [done|]. by right; left.
  - apply elem_of_get_chunk in Hk as (x' & y' & Hx' & Hy' & Hc & Hv);
      [|by apply chunk_number_lt].
    exists ((y / 3) * 3 + x / 3), (x', y').
    split; [by apply chunk_number_lt|]. split; [done|]. by right; right.
Qed.

Lemma is_valid_set_cell b x y v :
  well_formed b = true → is_valid b = true →
  x < 9 → y < 9 → value (b !!! (x, y)) = None →
  is_valid (set_cell b x y v) = true ↔ ¬ seen_from b x y v.
Proof.
  intros Hwf Hvalid Hx Hy Hnone.
  destruct (well_formed_lookup b x y Hwf Hx Hy) as (c & Hc & _).
  assert (Hval : ∀ q, value (set_cell b x y v !!! q)
                      = if decide ((x, y) = q) then Some v else value (b !!! q)).
  { intros q. by apply (value_set_value b (x, y) q (Some v) c). }
  split.
  - intros Hv1 Hseen. apply is_valid_true_iff in Hv1. apply Hv1.
    destruct (seen_group b x y v Hx Hy Hseen) as (i & q & Hi & Hq & Hgroup).
    assert (Hne : (x, y) ≠ q) by (intros <-; congruence).
    assert (Hq1 : value (set_cell b x y v !!! q) = Some v).
    { rw Hval. by case_decide. }
    assert (Hp1 : value (set_cell b x y v !!! (x, y)) = Some v).
    { rw Hval. by case_decide. }
    exists i. split; [done|].
    destruct Hgroup as [[??]|[[??]|[??]]]; [left|right; left|right; right];
      by exists (x, y), q, v.
  - intros Hseen. apply is_valid_true_iff. intros (i & Hi & Hrep).
    apply is_valid_true_iff in Hvalid. apply Hvalid. exists i. split; [done|].
    assert (Hkeep : ∀ group : nat * nat → Prop,
               (∀ q, group (x, y) → group q → value (b !!! q) = Some v →
                     seen_from b x y v) →
               repeated_value (set_cell b x y v) group → repeated_value b group).
    { intros group Hg (p1 & q1 & w & Hp1 & Hq1 & Hne & Hv1 & Hv2).
      rw Hval in Hv1. rw Hval in Hv2.
      destruct (decide ((x, y) = p1)) as [<-|Hp], (decide ((x, y) = q1)) as [<-|Hq].
      - done.
      - exfalso. apply Hseen, (Hg q1); [done..|]. congruence.
      - exfalso. apply Hseen, (Hg p1); [done..|]. congruence.
      - by exists p1, q1, w. }
    destruct Hrep as [Hrep|[Hrep|Hrep]]; [left|right; left|right; right];
      (apply Hkeep; [|done]); intros q Hp Hq Hv;
      apply (group_seen b x y i q v); auto.
Qed.

(** X9. For an unsolved cell of a valid board, the set that
    [get_possible_values] returns holds exactly the numbers from 1 to 9
    that [would_be_valid] accepts for the cell. *)
Theorem get_possible_values_would_be_valid b x y v :
  well_formed b = true → is_valid b = true →
  x < 9 → y < 9 → get_cell b x y = None →
  v ∈ (get_possible_values b (x, y)).2
  ↔ (1 ≤ v ≤ 9)%Z ∧ would_be_valid b x y v = true.
Proof.
  intros Hwf Hvalid Hx Hy Hnone.
  rw get_possible_values_unassigned // would_be_valid_set_cell.
  by rw is_valid_set_cell.
Qed.

Lemma get_possible_values_would_be_valid_witness :
  5%Z ∈ (get_possible_values dead_end_board (0, 1)).2
  ↔ (1 ≤ 5 ≤ 9)%Z ∧ would_be_valid dead_end_board 0 1 5 = true.
Proof.
  apply get_possible_values_would_be_valid.
  - vm_compute. reflexivity.
  - vm_compute. reflexivity.
  - lia.
  - lia.
  - vm_compute. reflexivity.
Defined.

Lemma get_possible_values_lookup_ne b p q :
  p ≠ q → (get_possible_values b p).1 !!! q = b !!! q.
Proof.
  intros Hne. rw /get_possible_values.
  destruct (value (b !!! p)); cbn [fst]; by rw lookup_total_alter_ne.
Qed.

(** X10. [get_possible_values] stores the set it returns in the cell, writes
    no value and touches no other cell; for an assigned cell the set is
    empty, and for an unsolved one it holds the numbers from 1 to 9 that
    neither the row nor the column nor the chunk of the cell lists. *)
Theorem get_possible_values_effect b x y :
  well_formed b = true → x < 9 → y < 9 →
  well_formed (get_possible_values b (x, y)).1 = true
  ∧ possibles ((get_possible_values b (x, y)).1 !!! (x, y))
    = (get_possible_values b (x, y)).2
  ∧ (∀ q, value ((get_possible_values b (x, y)).1 !!! q) = value (b !!! q))
  ∧ (∀ q, q ≠ (x, y) → (get_possible_values b (x, y)).1 !!! q = b !!! q)
  ∧ (get_cell b x y ≠ None → (get_possible_values b (x, y)).2 = ∅)
  ∧ (get_cell b x y = None →
     ∀ v, v ∈ (get_possible_values b (x, y)).2
          ↔ (1 ≤ v ≤ 9)%Z ∧ (v ∉ get_row b y) ∧ (v ∉ get_column b x)
            ∧ (v ∉ get_chunk b (get_chunk_number (b !!! (x, y))))).
Proof.
  intros Hwf Hx Hy.
  destruct (well_formed_lookup b x y Hwf Hx Hy) as (c & Hc & _).
  destruct (well_formed_lookup_total b x y Hwf Hx Hy) as (_ & Hbx & Hby).
  split; [by apply get_possible_values_well_formed|].
  split; [by apply (get_possible_values_stored b (x, y) c)|].
  split; [intros q; symmetry; apply get_possible_values_same_values|].
  split; [intros q Hq; by apply get_possible_values_lookup_ne|].
  split.
  - rw /get_cell /get_possible_values. by destruct (value (b !!! (x, y))).
  - intros Hnone v. rw get_possible_values_unassigned //.
    rw /seen_from /get_chunk_number Hbx Hby. tauto.
Qed.

Lemma get_possible_values_effect_witness :
  well_formed (get_possible_values dead_end_board (8, 0)).1 = true
  ∧ possibles ((get_possible_values dead_end_board (8, 0)).1 !!! (8, 0))
    = (get_possible_values dead_end_board (8, 0)).2
  ∧ (∀ q, value ((get_possible_values dead_end_board (8, 0)).1 !!! q)
          = value (dead_end_board !!! q))
  ∧ (∀ q, q ≠ (8, 0) →
          (get_possible_values dead_end_board (8, 0)).1 !!! q = dead_end_board !!! q)
  ∧ (get_cell dead_end_board 8 0 ≠ None →
     (get_possible_values dead_end_board (8, 0)).2 = ∅)
  ∧ (get_cell dead_end_board 8 0 = None →
     ∀ v, v ∈ (get_possible_values dead_end_board (8, 0)).2
          ↔ (1 ≤ v ≤ 9)%Z ∧ (v ∉ get_row dead_end_board 0)
            ∧ (v ∉ get_column dead_end_board 8)
            ∧ (v ∉ get_chunk dead_end_board
                     (get_chunk_number (dead_end_board !!! (8, 0))))).
Proof.
  apply get_possible_values_effect.
  - vm_compute. reflexivity.
  - lia.
  - lia.
Defined.

(** ** The propagation solver *)

Lemma pop_singleton (s : gset Z) :
  size s = 1 → ∃ v, pop s = Ok (v, s ∖ {[v]}) ∧ ∀ w, w ∈ s → w = v.
Proof.
  intros (v & Hv%leibniz_equiv)%size_1_elem_of. subst s. exists v.
  rw /pop elements_singleton. split; [done|]. by intros w ->%elem_of_singleton.
Qed.

Lemma extends_refl b : extends b b.
Proof. by intros x y v _ _. Qed.

Lemma extends_trans b1 b2 b3 : extends b1 b2 → extends b2 b3 → extends b1 b3.
Proof. intros H12 H23 x y v Hx Hy Hv. by apply H23, H12. Qed.

Lemma same_values_extends b b' : same_values b b' → extends b b'.
Proof. intros Hsame x y v _ _. by rw Hsame. Qed.

Lemma solution_not_seen b s x y w :
  digit_solution s → extends b s →
  x < 9 → y < 9 → value (b !!! (x, y)) = None →
  value (s !!! (x, y)) = Some w → ¬ seen_from b x y w.
Proof.
  intros (_ & Hvalid & _) Hext Hx Hy Hnone Hw Hseen.
  apply is_valid_true_iff in Hvalid. apply Hvalid.
  destruct (seen_group b x y w Hx Hy Hseen) as (i & [x' y'] & Hi & Hq & Hgroup).
  assert (Hne : (x, y) ≠ (x', y')) by (intros [= <- <-]; congruence).
  assert (Hgrid : x' < 9 ∧ y' < 9).
  { destruct Hgroup as [[_ Hg]|[[_ Hg]|[_ Hg]]];
      rw /in_row /in_column /in_block in Hg; cbn [fst snd] in Hg; lia. }
  destruct Hgrid as [Hx' Hy'].
  assert (Hq' : value (s !!! (x', y')) = Some w) by by apply Hext.
  exists i. split; [done|].
  destruct Hgroup as [[??]|[[??]|[??]]]; [left|right; left|right; right];
    by exists (x, y), (x', y'), w.
Qed.

Lemma solve_cell_post b x y :
  well_formed b = true → x < 9 → y < 9 →
  step_post b (solve_cell b (x, y)).1 (solve_cell b (x, y)).2.
Proof.
  intros Hwf Hx Hy. rw /solve_cell.
  destruct (value (b !!! (x, y))) as [w|] eqn:Hv.
  { destruct (is_valid b) eqn:Hvalid; cbn [negb fst snd];
      (split; [done|]); (split; [apply extends_refl|]); (split; [done|]);
      first [done|by eexists]. }
  destruct (well_formed_lookup b x y Hwf Hx Hy) as (c & Hc & _).
  pose proof (get_possible_values_same_values b (x, y)) as Hsame.
  pose proof (get_possible_values_well_formed b (x, y) Hwf) as Hwf1.
  cbn zeta. rw (get_possible_values_stored b (x, y) c) //.
  set (b1 := (get_possible_values b (x, y)).1) in *.
  set (poss := (get_possible_values b (x, y)).2).
  assert (Hkeep1 : ∀ s, extends b s → extends b1 s).
  { intros s Hs x' y' v ??. rw -Hsame. by apply Hs. }
  destruct (size poss =? 0) eqn:H0.
  { cbn [fst snd]. split; [done|]. split; [by apply same_values_extends|].
    split; [intros s _; apply Hkeep1|]. by eexists. }
  destruct (size poss =? 1) eqn:H1.
  - apply Nat.eqb_eq in H1. destruct (pop_singleton poss H1) as (v & -> & Hone).
    set (b2 := alter (set_value (Some v)) (x, y) (alter (set_possibles _) (x, y) b1)).
    assert (Hwf2 : well_formed b2 = true).
    { apply well_formed_alter; [done|]. by apply well_formed_alter. }
    assert (Hval2 : ∀ q, value (b2 !!! q)
                         = if decide ((x, y) = q) then Some v else value (b !!! q)).
    { intros q. rw /b2. destruct (decide ((x, y) = q)) as [<-|Hne].
      - rw lookup_total_alter_eq lookup_alter_eq.
        destruct (well_formed_lookup b1 x y Hwf1 Hx Hy) as (c1 & -> & _). done.
      - rw lookup_total_alter_ne // value_lookup_total_alter //. }
    assert (Hext2 : extends b b2).
    { intros x' y' w ?? Hw. rw Hval2. case_decide as Hp; [|done]. congruence. }
    assert (Hsol2 : ∀ s, digit_solution s → extends b s → extends b2 s).
    { intros s Hs Hexts x' y' w Hx' Hy'. rw Hval2.
      case_decide as Hp; [|by apply Hexts].
      injection Hp as <- <-. intros [= <-].
      destruct Hs as (Hcomp & Hsv & Hdig).
      destruct (value (s !!! (x, y))) as [u|] eqn:Hu; [|by apply Hcomp in Hu].
      f_equal. apply Hone. apply get_possible_values_unassigned; [done..|].
      split; [by apply (Hdig x y)|].
      by apply (solution_not_seen b s x y u). }
    destruct (is_valid b2) eqn:Hvalid; cbn [negb fst snd];
      (split; [done|]); (split; [done|]); (split; [done|]);
      first [done|by eexists].
  - destruct (is_valid b1) eqn:Hvalid; cbn [negb fst snd];
      (split; [done|]); (split; [by apply same_values_extends|]);
      (split; [intros s _; apply Hkeep1|]); first [done|by eexists].
Qed.

Lemma solve_pass_post ps b :
  well_formed b = true → (∀ p, p ∈ ps → p ∈ iter_coords) →
  step_post b (solve_pass b ps).1 (solve_pass b ps).2
  ∨ ps = [] ∧ solve_pass b ps = (b, Ok tt).
Proof.
  revert b. induction ps as [|[x y] ps IH]; intros b Hwf Hps; [by right|left].
  assert ((x, y) ∈ iter_coords) as [Hx Hy]%elem_of_iter_coords.
  { apply Hps. by left. }
  pose proof (solve_cell_post b x y Hwf Hx Hy) as Hcell. cbn [solve_pass].
  destruct (solve_cell b (x, y)) as [b1 [[]|e]]; [|done].
  destruct Hcell as (Hwf1 & Hext1 & Hsol1 & Hvalid1). cbn [fst snd] in *.
  destruct (IH b1 Hwf1) as [(Hwf' & Hext' & Hsol' & Hr)|[-> ->]].
  { intros p Hp. apply Hps. by right. }
  - split; [done|]. split; [by eapply extends_trans|]. split; [|done].
    intros s Hs Hexts. by apply Hsol', Hsol1.
  - done.
Qed.

Lemma iter_coords_first : ∃ rest, iter_coords = (0, 0) :: rest.
Proof. eexists. reflexivity. Qed.

Lemma solve_post fuel iterations b b' r :
  well_formed b = true → solve fuel iterations b = Some (b', r) →
  well_formed b' = true ∧ extends b b'
  ∧ (∀ s, digit_solution s → extends b s → extends b' s)
  ∧ match r with
    | Ok _ => is_valid b' = true ∧ get_unsolved_count b' = 0
    | Raise e => ∃ msg, e = BoardException msg
    end.
Proof.
  revert iterations b. induction fuel as [|fuel IH]; intros iterations b Hwf Hrun.
  { done. }
  cbn [solve] in Hrun.
  destruct (solve_pass_post iter_coords b Hwf) as [Hpost|[Hnil _]]; [done| |].
  2: { destruct iter_coords_first as [rest Hrest]. by rw Hrest in Hnil. }
  destruct (solve_pass b iter_coords) as [b1 [[]|e]].
  - destruct Hpost as (Hwf1 & Hext1 & Hsol1 & Hvalid1). cbn [fst snd] in *.
    cbn zeta in Hrun. destruct (get_unsolved_count b1 =? 0) eqn:Hcount.
    + injection Hrun as <- <-. apply Nat.eqb_eq in Hcount. done.
    + destruct (IH _ _ Hwf1 Hrun) as (Hwf' & Hext' & Hsol' & Hr).
      split; [done|]. split; [by eapply extends_trans|]. split; [|done].
      intros s Hs Hexts. by apply Hsol', Hsol1.
  - injection Hrun as <- <-. done.
Qed.

(** X11. When [solve] returns, the board has the 81 cells, [is_solved]
    accepts it (valid, every cell assigned) and every value that was given
    is still in its cell. *)
Theorem solve_returns_solved fuel iterations b b' n :
  well_formed b = true → solve fuel iterations b = Some (b', Ok n) →
  well_formed b' = true ∧ is_solved b' = Ok true
  ∧ ∀ x y v, x < 9 → y < 9 → get_cell b x y = Some v → get_cell b' x y = Some v.
Proof.
  intros Hwf Hrun.
  destruct (solve_post fuel iterations b b' _ Hwf Hrun)
    as (Hwf' & Hext & _ & Hvalid & Hcount).
  split; [done|]. split; [|done].
  apply is_solved_Ok_true. split; [done|]. by apply unsolved_count_0_complete.
Qed.

Lemma solve_returns_solved_witness :
  well_formed puzzle_solved = true ∧ is_solved puzzle_solved = Ok true
  ∧ ∀ x y v, x < 9 → y < 9 →
             get_cell puzzle_board x y = Some v → get_cell puzzle_solved x y = Some v.
Proof.
  apply (solve_returns_solved 4 1 puzzle_board puzzle_solved 4).
  - vm_compute. reflexivity.
  - vm_compute. reflexivity.
Defined.

(** X12. [solve] never guesses: when it returns, every finished puzzle
    (complete, valid, digits 1 to 9) that keeps the given values has in
    each cell the value that [solve] wrote there, so the puzzle had no other
    solution. *)
Theorem solve_returns_only_solution fuel iterations b b' n s :
  well_formed b = true → solve fuel iterations b = Some (b', Ok n) →
  digit_solution s → extends b s →
  ∀ x y, x < 9 → y < 9 → get_cell s x y = get_cell b' x y.
Proof.
  intros Hwf Hrun Hs Hexts x y Hx Hy.
  destruct (solve_post fuel iterations b b' _ Hwf Hrun)
    as (_ & _ & Hsol & _ & Hcount).
  apply unsolved_count_0_complete in Hcount.
  rw /get_cell. destruct (value (b' !!! (x, y))) as [v|] eqn:Hv.
  - by apply (Hsol s Hs Hexts).
  - by apply Hcount in Hv.
Qed.

Lemma puzzle_solved_digit_solution : digit_solution puzzle_solved.
Proof.
  assert (Hall : forallb (digit_at puzzle_solved) iter_coords = true) by by vm_compute.
  rw forallb_forall in Hall.
  assert (Hdig : ∀ x y, x < 9 → y < 9 →
             ∃ v, value (puzzle_solved !!! (x, y)) = Some v ∧ v ∈ digits).
  { intros x y Hx Hy. specialize (Hall (x, y)). rw /digit_at in Hall.
    destruct (value (puzzle_solved !!! (x, y))) as [v|].
    - exists v. split; [done|]. eapply bool_decide_eq_true, Hall.
      by apply list_elem_of_In, elem_of_iter_coords.
    - discriminate Hall. by apply list_elem_of_In, elem_of_iter_coords. }
  split; [|split].
  - intros x y Hx Hy. by destruct (Hdig x y Hx Hy) as (v & -> & _).
  - by vm_compute.
  - intros x y v Hx Hy Hv. destruct (Hdig x y Hx Hy) as (v' & Hv' & Hin).
    assert (v' = v) as -> by congruence.
    clear -Hin. change digits with (seqZ 1 9) in Hin.
    apply elem_of_seqZ in Hin. lia.
Qed.

Lemma puzzle_solved_extends : extends puzzle_board puzzle_solved.
Proof.
  assert (Hrun : solve 4 1 puzzle_board = Some (puzzle_solved, Ok 4)) by by vm_compute.
  apply solve_post in Hrun; [|by vm_compute]. by destruct Hrun as (_ & ? & _).
Qed.

Lemma solve_returns_only_solution_witness :
  get_cell puzzle_solved 0 0 = get_cell puzzle_solved 0 0.
Proof.
  apply (solve_returns_only_solution 4 1 puzzle_board puzzle_solved 4 puzzle_solved).
  - vm_compute. reflexivity.
  - vm_compute. reflexivity.
  - apply puzzle_solved_digit_solution.
  - apply puzzle_solved_extends.
  - lia.
  - lia.
Defined.



(** X14. On a board that is not valid, [solve] raises [BoardException]
    in its first pass, whatever the board holds otherwise. *)
Theorem solve_invalid_raises fuel iterations b :
  well_formed b = true → is_valid b = false →
  ∃ b' msg, solve (S fuel) iterations b = Some (b', Raise (BoardException msg)).
Proof.
  intros Hwf Hinvalid. cbn [solve].
  destruct iter_coords_first as [rest ->]. cbn [solve_pass].
  pose proof (solve_cell_post b 0 0 Hwf) as Hcell.
  destruct (solve_cell b (0, 0)) as [b1 [[]|e]].
  - exfalso. destruct Hcell as (_ & Hext & _ & Hvalid); [lia..|].
    cbn [fst snd] in *. rw (extends_is_valid b b1) // in Hinvalid.
  - destruct Hcell as (_ & _ & _ & msg & ->); [lia..|]. by exists b1, msg.
Qed.

Lemma solve_invalid_raises_witness :
  ∃ b' msg, solve 1 1 two_ones_board = Some (b', Raise (BoardException msg)).
Proof.
  apply solve_invalid_raises.
  - vm_compute. reflexivity.
  - vm_compute. reflexivity.
Defined.




(** ** The backtracking solver on any grid *)

Lemma digit_solution_solvable {rng : Type} (shuffle : rng → list Z → list Z * rng)
    (b s : Board) :
  (∀ g l, (shuffle g l).1 ≡ₚ l) →
  digit_solution s → extends b s → solvable shuffle b.
Proof.
  intros Hperm (Hcomp & Hvalid & Hdig) Hext. exists s.
  split; [done|]. split; [done|]. split; [done|].
  intros g x y v Hx Hy Hv. rw Hperm. change digits with (seqZ 1 9).
  apply elem_of_seqZ. pose proof (Hdig x y v Hx Hy Hv). lia.
Qed.

Section Backtracking_any_grid.
Context {rng : Type} (shuffle : rng → list Z → list Z * rng).

(** X16. When [solve_sudoku] returns [True] on a valid board, [is_solved]
    accepts the board it leaves (valid, every cell assigned), and every
    value that was given is still in its cell. *)
Theorem solve_sudoku_True_solved fuel g b g' b' :
  well_formed b = true → is_valid b = true →
  get_unsolved_count b < fuel →
  solve_sudoku shuffle fuel g b = Some (g', b', true) →
  well_formed b' = true ∧ is_solved b' = Ok true
  ∧ ∀ x y v, x < 9 → y < 9 → get_cell b x y = Some v → get_cell b' x y = Some v.
Proof.
  intros Hwf Hvalid Hfuel Hrun.
  destruct (solve_sudoku_spec shuffle (fun _ => True)
              (fun g => Forall_true _ _ (fun _ => I)) fuel g b Hwf Hfuel)
    as (res & Hres & Hpost & _).
  assert (res = (g', b', true)) as -> by congruence.
  destruct Hpost as (Hwf' & Hcomp & Hv & Hext & _).
  split; [done|]. split; [|done]. apply complete_is_solved; auto.
Qed.

(** [random.shuffle] reorders the list it is given. *)
Hypothesis shuffle_perm : ∀ g l, (shuffle g l).1 ≡ₚ l.

(** X17. Whatever the shuffles, [solve_sudoku] returns [True] on every
    board that some finished puzzle (complete, valid, digits 1 to 9)
    extends, and leaves such a finished puzzle; when the board has only one,
    that one is what it leaves. *)
Theorem solve_sudoku_finds_solution fuel g b s :
  well_formed b = true → get_unsolved_count b < fuel →
  digit_solution s → extends b s →
  ∃ g' b', solve_sudoku shuffle fuel g b = Some (g', b', true)
           ∧ digit_solution b' ∧ extends b b'
           ∧ ((∀ s', digit_solution s' → extends b s' →
                     ∀ x y, x < 9 → y < 9 → get_cell s' x y = get_cell s x y) →
              ∀ x y, x < 9 → y < 9 → get_cell b' x y = get_cell s x y).
Proof.
  intros Hwf Hfuel Hs Hext.
  assert (Hallowed : ∀ g, Forall (fun v => (1 ≤ v ≤ 9)%Z) (shuffle g digits).1).
  { intros g0. apply Forall_forall. intros v. rw shuffle_perm.
    change digits with (seqZ 1 9). rw elem_of_seqZ. lia. }
  destruct (solve_sudoku_spec shuffle _ Hallowed fuel g b Hwf Hfuel)
    as ([[g' b'] r] & Hrun & Hpost & Hsolv).
  assert (r = true) as ->.
  { by apply Hsolv, (digit_solution_solvable shuffle b s). }
  destruct Hpost as (Hwf' & Hcomp & Hvalid & Hext' & Hfrom).
  assert (Hsol' : digit_solution b').
  { destruct Hs as (_ & Hsv & Hsd). split; [done|]. split.
    - apply Hvalid. by apply (extends_is_valid b s).
    - intros x y v Hx Hy Hv. destruct (Hfrom _ _ Hv) as [Hb|?]; [|done].
      apply (Hsd x y); [done..|]. by apply Hext. }
  exists g', b'. split; [done|]. split; [done|]. split; [done|].
  intros Huniq. by apply Huniq.
Qed.

End Backtracking_any_grid.

Lemma solve_sudoku_True_solved_witness :
  well_formed puzzle_searched = true ∧ is_solved puzzle_searched = Ok true
  ∧ ∀ x y v, x < 9 → y < 9 →
             get_cell puzzle_board x y = Some v → get_cell puzzle_searched x y = Some v.
Proof.
  apply (solve_sudoku_True_solved id_shuffle 82 tt puzzle_board tt).
  - vm_compute. reflexivity.
  - vm_compute. reflexivity.
  - vm_compute. lia.
  - vm_compute. reflexivity.
Defined.

Lemma solve_sudoku_finds_solution_witness :
  ∃ g' b', solve_sudoku id_shuffle 82 tt puzzle_board = Some (g', b', true)
           ∧ digit_solution b' ∧ extends puzzle_board b'
           ∧ ((∀ s', digit_solution s' → extends puzzle_board s' →
                     ∀ x y, x < 9 → y < 9 →
                            get_cell s' x y = get_cell puzzle_solved x y) →
              ∀ x y, x < 9 → y < 9 → get_cell b' x y = get_cell puzzle_solved x y).
Proof.
  apply (solve_sudoku_finds_solution id_shuffle).
  - intros g l. reflexivity.
  - vm_compute. reflexivity.
  - vm_compute. lia.
  - apply puzzle_solved_digit_solution.
  - apply puzzle_solved_extends.
Defined.

Lemma try_nums_refused {rng : Type}
    (recurse : rng → Board → option (rng * Board * bool)) cell nums g b :
  (∀ num, would_be_valid b (cell_x cell) (cell_y cell) num = false) →
  try_nums recurse cell nums g b = Some (g, b, false).
Proof.
  intros Hno. induction nums as [|num rest IH]; [done|].
  cbn [try_nums]. by rw Hno.
Qed.

(** X18. On a board that is not valid and has an unsolved cell,
    [solve_sudoku] returns [False] after one shuffle, without a recursive
    call and without a change to the board: no number is accepted by
    [would_be_valid]. *)
Theorem solve_sudoku_invalid_False {rng : Type}
    (shuffle : rng → list Z → list Z * rng) fuel g b :
  well_formed b = true → is_valid b = false → 0 < get_unsolved_count b →
  solve_sudoku shuffle (S fuel) g b
  = Some ((shuffle g [1; 2; 3; 4; 5; 6; 7; 8; 9]%Z).2, b, false).
Proof.
  intros Hwf Hinvalid Hcount. cbn [solve_sudoku].
  destruct (List.find _ (iter_cells b)) as [cell|] eqn:Hfind.
  - apply find_unsolved_Some in Hfind as (Hx & Hy & Hcell & Hnone); [|done].
    destruct (shuffle g _) as [nums g1]. cbn [snd].
    apply try_nums_refused. intros num.
    rw would_be_valid_set_cell. apply not_true_iff_false. intros Hv.
    rw (extends_is_valid b (set_cell b (cell_x cell) (cell_y cell) num)) // in Hinvalid.
    intros x y v _ _ Hb.
    rw /set_cell (value_set_value b _ (x, y) (Some num) cell) //.
    case_decide as Hp; [|done]. exfalso.
    rw -Hp lookup_total_alt Hcell /= Hnone in Hb. done.
  - apply find_unsolved_None, unsolved_count_0_complete in Hfind. lia.
Qed.

Lemma solve_sudoku_invalid_False_witness :
  solve_sudoku id_shuffle 1 tt two_ones_board
  = Some ((id_shuffle tt [1; 2; 3; 4; 5; 6; 7; 8; 9]%Z).2, two_ones_board, false).
Proof.
  apply solve_sudoku_invalid_False.
  - vm_compute. reflexivity.
  - vm_compute. reflexivity.
  - vm_compute. lia.
Defined.

(** ** Loading and saving any string *)



Lemma possibles_set_value (b : Board) p q v :
  possibles (alter (set_value v) p b !!! q) = possibles (b !!! q).
Proof.
  destruct (decide (p = q)) as [->|Hne].
  - rw lookup_total_alter_eq lookup_total_alt. by destruct (b !! q).
  - by rw lookup_total_alter_ne.
Qed.

Lemma load_loop_possibles l b q :
  possibles ((load_loop b l).1 !!! q) = possibles (b !!! q).
Proof.
  revert b. induction l as [|[i ch] rest IH]; intros b; [done|].
  cbn [load_loop]. destruct (isdigit ch); [destruct (int ch)|];
    try done; by rw IH possibles_set_value.
Qed.

Lemma count_all_possible_values_0 b :
  (∀ x y, x < 9 → y < 9 → possibles (b !!! (x, y)) = ∅) →
  count_all_possible_values b = 0.
Proof.
  intros Hall. rw /count_all_possible_values /values /iter_cells.
  assert (Hl : ∀ p, p ∈ iter_coords → possibles (b !!! p) = ∅).
  { intros [x y] [??]%elem_of_iter_coords. by apply Hall. }
  revert Hl. generalize iter_coords. intros l Hl.
  induction l as [|p l IH]; [done|].
  cbn [map foldl]. rw Hl; [|by left]. rw size_empty. cbn [Nat.add].
  apply IH. intros q Hq. apply Hl. by right.
Qed.

(** X20. After [clear_board], and after a [load_from_string] that
    succeeds, no cell of the grid has a possible value left and
    [count_all_possible_values] returns 0: loading does not refill the sets
    that [clear_board] emptied. *)
Theorem loaded_board_no_possibles b :
  well_formed b = true →
  count_all_possible_values (clear_board b) = 0
  ∧ ∀ s b', load_from_string b s = (b', Ok tt) →
            (∀ x y, x < 9 → y < 9 → possibles (b' !!! (x, y)) = ∅)
            ∧ count_all_possible_values b' = 0.
Proof.
  intros Hwf.
  assert (Hclear : ∀ x y, x < 9 → y < 9 → possibles (clear_board b !!! (x, y)) = ∅).
  { intros x y Hx Hy. by rw clear_board_lookup_total. }
  split; [by apply count_all_possible_values_0|].
  intros s b' Hrun.
  assert (Hposs : ∀ x y, x < 9 → y < 9 → possibles (b' !!! (x, y)) = ∅).
  { intros x y Hx Hy. rw /load_from_string in Hrun.
    case_bool_decide; [done|].
    assert (b' = (load_loop (clear_board b) (enumerate s)).1) as -> by by rw Hrun.
    rw load_loop_possibles. by apply Hclear. }
  split; [done|]. by apply count_all_possible_values_0.
Qed.

Lemma loaded_board_no_possibles_witness :
  count_all_possible_values (clear_board Board_new) = 0
  ∧ ∀ s b', load_from_string Board_new s = (b', Ok tt) →
            (∀ x y, x < 9 → y < 9 → possibles (b' !!! (x, y)) = ∅)
            ∧ count_all_possible_values b' = 0.
Proof. apply loaded_board_no_possibles. vm_compute. reflexivity. Defined.

Lemma cell_char_spec cell :
  (∀ v, value cell = Some v → (0 ≤ v ≤ 9)%Z) →
  cell_str cell = String (cell_char cell) ""
  ∧ parses (cell_char cell) ∧ parsed_value (cell_char cell) = value cell.
Proof.
  intros Hrange. rw /cell_str /cell_char /parses.
  destruct (value cell) as [v|]; [|by vm_compute].
  assert (v = 0 ∨ v = 1 ∨ v = 2 ∨ v = 3 ∨ v = 4 ∨ v = 5 ∨ v = 6 ∨ v = 7
          ∨ v = 8 ∨ v = 9)%Z as Hv by (specialize (Hrange v eq_refl); lia).
  destruct Hv as [->|[->|[->|[->|[->|[->|[->|[->|[->| ->]]]]]]]]]; by vm_compute.
Qed.

Lemma save_to_string_chars b :
  (∀ x y v, x < 9 → y < 9 → value (b !!! (x, y)) = Some v → (0 ≤ v ≤ 9)%Z) →
  save_to_string b = string_of_list_ascii (cell_char <$> values b).
Proof.
  intros Hrange. rw /save_to_string foldl_append.
  change (String.append "" ?x) with x. rw -foldr_append_chars.
  rw (foldr_fmap _ _ _ cell_char). apply foldr_append_ext.
  apply list_fmap_ext. intros i cell Hcell.
  apply cell_char_spec. intros v Hv.
  apply list_elem_of_lookup_2, list_elem_of_fmap in Hcell
    as ([x y] & -> & [Hx Hy]%elem_of_iter_coords).
  by apply (Hrange x y).
Qed.

(** X21. A board whose assigned values are among 0..9 is written by
    [save_to_string] as 81 characters, and loading that string into any
    board succeeds and gives a board that [Board.__eq__] finds equal to the
    one that was saved. *)
Theorem board_save_load_roundtrip b0 b :
  well_formed b0 = true → well_formed b = true →
  (∀ x y v, x < 9 → y < 9 → get_cell b x y = Some v → (0 ≤ v ≤ 9)%Z) →
  String.length (save_to_string b) = 81
  ∧ ∃ b', load_from_string b0 (save_to_string b) = (b', Ok tt)
          ∧ (∀ x y, x < 9 → y < 9 → get_cell b' x y = get_cell b x y)
          ∧ Board_eq b' b = true.
Proof.
  intros Hwf0 Hwf Hrange.
  pose proof (save_to_string_chars b Hrange) as Hsave.
  assert (Hchars : list_ascii_of_string (save_to_string b) = cell_char <$> values b).
  { by rw Hsave list_ascii_of_string_of_list_ascii. }
  assert (Hlen : String.length (save_to_string b) = 81).
  { by rw -length_list_ascii_of_string Hchars length_fmap. }
  assert (Hcell : ∀ cell, cell ∈ values b →
             parses (cell_char cell) ∧ parsed_value (cell_char cell) = value cell).
  { intros cell ([x y] & -> & [Hx Hy]%elem_of_iter_coords)%list_elem_of_fmap.
    apply cell_char_spec. intros v Hv. by apply (Hrange x y). }
  destruct (load_from_string_parses b0 (save_to_string b) Hwf0 Hlen)
    as (b' & Hrun & Hwf' & Hval).
  { rw Hchars. apply Forall_forall.
    intros ch (cell & -> & Hin)%list_elem_of_fmap. by apply Hcell. }
  split; [done|]. exists b'. split; [done|].
  assert (Hsame : ∀ x y, x < 9 → y < 9 → get_cell b' x y = get_cell b x y).
  { intros x y Hx Hy. rw /get_cell.
    assert (Hkey : key (y * 9 + x) = (x, y)).
    { rw /key. f_equal; lia. }
    assert (Hi : values b !! (y * 9 + x) = Some (b !!! (x, y))).
    { rw /values /iter_cells iter_coords_key.
      change (map ?f ?l) with (f <$> l).
      rw !list_lookup_fmap lookup_seq_lt; [|lia].
      change (0 + (y * 9 + x)) with (y * 9 + x).
      cbn [fmap option_fmap option_map]. by rw Hkey. }
    assert (Hch : list_ascii_of_string (save_to_string b) !! (y * 9 + x)
                  = Some (cell_char (b !!! (x, y)))).
    { by rw Hchars list_lookup_fmap Hi. }
    apply Hval in Hch. rw Hkey in Hch. rw Hch.
    apply Hcell. by eapply list_elem_of_lookup_2. }
  split; [done|]. by apply Board_eq_true_iff; [|intros x y Hx Hy;
    destruct (well_formed_lookup_total b x y Hwf Hx Hy) as (_ & ? & ?);
    split; [apply Hsame|]].
Qed.

Lemma board_save_load_roundtrip_witness :
  String.length (save_to_string solved_grid) = 81
  ∧ ∃ b', load_from_string two_ones_board (save_to_string solved_grid) = (b', Ok tt)
          ∧ (∀ x y, x < 9 → y < 9 → get_cell b' x y = get_cell solved_grid x y)
          ∧ Board_eq b' solved_grid = true.
Proof.
  apply board_save_load_roundtrip.
  - vm_compute. reflexivity.
  - vm_compute. reflexivity.
  - intros x y v Hx Hy Hv. destruct (solved_grid_digit x y Hx Hy) as (v' & Hv' & Hin).
    rw /get_cell in Hv. assert (v' = v) as -> by congruence.
    change digits with (seqZ 1 9) in Hin. apply elem_of_seqZ in Hin. lia.
Defined.

(** ** Updating every cell *)

Lemma update_fold l b :
  well_formed b = true → NoDup l → (∀ p, p ∈ l → p ∈ iter_coords) →
  let b' := foldl (fun b p => match value (b !!! p) with
                              | None => (get_possible_values b p).1
                              | Some _ => b
                              end) b l in
  well_formed b' = true ∧ same_values b b'
  ∧ (∀ x y, (x, y) ∈ l → value (b !!! (x, y)) = None →
            possibles (b' !!! (x, y)) = (get_possible_values b (x, y)).2)
  ∧ (∀ p, p ∉ l ∨ value (b !!! p) ≠ None → b' !!! p = b !!! p).
Proof.
  revert b. induction l as [|p l IH]; intros b Hwf Hnd Hl; cbn zeta.
  { cbn [foldl]. split; [done|]. split; [done|]. split; [|done].
    by intros x y ?%elem_of_nil. }
  apply NoDup_cons in Hnd as [Hp Hnd]. cbn [foldl].
  set (b1 := match value (b !!! p) with
             | None => (get_possible_values b p).1
             | Some _ => b
             end).
  assert (Hwf1 : well_formed b1 = true).
  { rw /b1. destruct (value (b !!! p)); [done|].
    by apply get_possible_values_well_formed. }
  assert (Hsame1 : same_values b b1).
  { rw /b1. destruct (value (b !!! p)); [done|].
    apply get_possible_values_same_values. }
  assert (Hne1 : ∀ q, q ≠ p → b1 !!! q = b !!! q).
  { intros q Hq. rw /b1. destruct (value (b !!! p)); [done|].
    by apply get_possible_values_lookup_ne. }
  assert (Hsome1 : value (b !!! p) ≠ None → b1 = b).
  { rw /b1. by destruct (value (b !!! p)). }
  destruct (IH b1 Hwf1 Hnd) as (Hwf' & Hsame' & Hposs' & Hframe').
  { intros q Hq. apply Hl. by right. }
  split; [done|]. split; [intros q; by rw Hsame1|]. split.
  - intros x y Hin Hnone. apply elem_of_cons in Hin as [<-|Hin].
    + rw Hframe'; [|by left].
      assert ((x, y) ∈ iter_coords) as [Hx Hy]%elem_of_iter_coords.
      { apply Hl. by left. }
      destruct (well_formed_lookup b x y Hwf Hx Hy) as (c & Hc & _).
      rw /b1 Hnone. by apply (get_possible_values_stored b (x, y) c).
    + assert ((x, y) ∈ iter_coords) as [Hx Hy]%elem_of_iter_coords.
      { apply Hl. by right. }
      rw (Hposs' x y Hin); [|by rw -Hsame1].
      symmetry. by apply get_possible_values_ext.
  - intros q [Hq|Hq].
    + rw Hframe'; [|left; intros ?; apply Hq; by right].
      apply Hne1. intros ->. apply Hq. by left.
    + rw Hframe'; [|right; by rw -Hsame1].
      destruct (decide (q = p)) as [->|Hne]; [by rw Hsome1|by apply Hne1].
Qed.

(** X22. [update_all_cells_possible_values] writes no value and keeps the
    81 cells; afterwards every unsolved cell stores the possible values
    that [get_possible_values] computes for it on the board, and every
    assigned cell is as it was, its set of possible values included. *)
Theorem update_all_cells_effect b :
  well_formed b = true →
  well_formed (update_all_cells_possible_values b) = true
  ∧ (∀ x y, get_cell (update_all_cells_possible_values b) x y = get_cell b x y)
  ∧ (∀ x y, x < 9 → y < 9 → get_cell b x y = None →
            possibles (update_all_cells_possible_values b !!! (x, y))
            = (get_possible_values b (x, y)).2)
  ∧ (∀ x y, get_cell b x y ≠ None →
            update_all_cells_possible_values b !!! (x, y) = b !!! (x, y)).
Proof.
  intros Hwf.
  destruct (update_fold iter_coords b Hwf NoDup_iter_coords)
    as (Hwf' & Hsame & Hposs & Hframe); [done|].
  split; [done|]. split; [|split].
  - intros x y. symmetry. apply Hsame.
  - intros x y Hx Hy Hnone. apply Hposs; [|done]. by apply elem_of_iter_coords.
  - intros x y Hv. apply Hframe. by right.
Qed.

Lemma update_all_cells_effect_witness :
  well_formed (update_all_cells_possible_values dead_end_board) = true
  ∧ (∀ x y, get_cell (update_all_cells_possible_values dead_end_board) x y
            = get_cell dead_end_board x y)
  ∧ (∀ x y, x < 9 → y < 9 → get_cell dead_end_board x y = None →
            possibles (update_all_cells_possible_values dead_end_board !!! (x, y))
            = (get_possible_values dead_end_board (x, y)).2)
  ∧ (∀ x y, get_cell dead_end_board x y ≠ None →
            update_all_cells_possible_values dead_end_board !!! (x, y)
            = dead_end_board !!! (x, y)).
Proof. apply update_all_cells_effect. vm_compute. reflexivity. Defined.

(** ** Clearing a random cell *)

Lemma filter_iff_in {A} (P Q : A → Prop) `{!∀ a, Decision (P a)}
    `{!∀ a, Decision (Q a)} (l : list A) :
  (∀ a, a ∈ l → (P a ↔ Q a)) → filter P l = filter Q l.
Proof.
  induction l as [|c l IH]; intros Hiff; [done|].
  rw !filter_cons IH; [|intros a Ha; apply Hiff; by right].
  assert (P c ↔ Q c) as Hc by (apply Hiff; by left).
  destruct (decide (P c)) as [Hp|Hp], (decide (Q c)) as [Hq|Hq]; tauto.
Qed.

Lemma length_filter_S {A} (P Q : A → Prop) `{!∀ a, Decision (P a)}
    `{!∀ a, Decision (Q a)} (l : list A) a :
  NoDup l → a ∈ l → ¬ P a → (∀ a', Q a' ↔ P a' ∨ a' = a) →
  List.length (filter Q l) = S (List.length (filter P l)).
Proof.
  intros Hnd Hin Hp Hq. induction l as [|c l IH]; [by apply elem_of_nil in Hin|].
  apply NoDup_cons in Hnd as [Hc Hnd]. rw !filter_cons.
  apply elem_of_cons in Hin as [<-|Hin].
  - assert (filter Q l = filter P l) as ->.
    { apply filter_iff_in. intros a' Ha'. rw Hq. split; [|by left].
      intros [?|Heq]; [done|by subst a']. }
    destruct (decide (Q a)) as [Hqa|Hqa], (decide (P a)) as [Hpa|Hpa];
      try done. exfalso. apply Hqa, Hq. by right.
  - specialize (IH Hnd Hin).
    assert (Q c ↔ P c) as Hcq.
    { rw Hq. split; [|by left]. intros [?|Heq]; [done|by subst c]. }
    destruct (decide (Q c)) as [Hqc|Hqc], (decide (P c)) as [Hpc|Hpc];
      cbn [List.length]; try lia; tauto.
Qed.

Section Clear_random_cell.
Context {rng : Type} (randbelow : rng → nat → nat * rng).

(** The index that [random.choice] draws is below the length. *)
Hypothesis randbelow_lt : ∀ g n, 0 < n → (randbelow g n).1 < n.

(** X23. [clear_random_cell] raises (the [IndexError] of [random.choice])
    when the board has no solved cell; otherwise it clears one solved cell
    of the grid, which becomes unassigned with the possible values 1..9,
    leaves every other cell as it was, raises [get_unsolved_count] by one
    and keeps a valid board valid. *)
Theorem clear_random_cell_effect g b :
  well_formed b = true →
  (get_solved_cells b = [] → clear_random_cell randbelow g b = None)
  ∧ (get_solved_cells b ≠ [] →
     ∃ x y b' g',
       clear_random_cell randbelow g b = Some (b', g')
       ∧ x < 9 ∧ y < 9 ∧ get_cell b x y ≠ None
       ∧ get_cell b' x y = None ∧ possibles (b' !!! (x, y)) = full_possibles
       ∧ (∀ q, q ≠ (x, y) → b' !!! q = b !!! q)
       ∧ well_formed b' = true
       ∧ get_unsolved_count b' = S (get_unsolved_count b)
       ∧ (is_valid b = true → is_valid b' = true)).
Proof.
  intros Hwf. rw /clear_random_cell. split; [by intros ->|].
  intros Hne. destruct (get_solved_cells b) as [|c0 rest] eqn:Hsolved; [done|].
  destruct (randbelow g (List.length (c0 :: rest))) as [i g'] eqn:Hrand.
  assert (Hi : i < List.length (c0 :: rest)).
  { pose proof (randbelow_lt g (List.length (c0 :: rest))) as Hlt.
    rw Hrand in Hlt. apply Hlt. cbn [List.length]. lia. }
  destruct (lookup_lt_is_Some_2 _ _ Hi) as [cell Hcell].
  assert (Hch : random_choice randbelow g (c0 :: rest) = Some (cell, g')).
  { by rw /random_choice Hrand Hcell. }
  rw Hch. clear Hch.
  apply list_elem_of_lookup_2 in Hcell. rw -Hsolved in Hcell.
  apply list_elem_of_filter in Hcell as [Hsome Hin].
  apply list_elem_of_fmap in Hin as ([x y] & -> & [Hx Hy]%elem_of_iter_coords).
  destruct (well_formed_lookup_total b x y Hwf Hx Hy) as (Hl & -> & ->).
  set (b' := alter Cell_clear (x, y) b).
  assert (Hat : b' !!! (x, y) = Cell_clear (b !!! (x, y))).
  { by rw /b' lookup_total_alter_eq Hl. }
  assert (Hval : ∀ q, value (b' !!! q)
                      = if decide (q = (x, y)) then None else value (b !!! q)).
  { intros q. case_decide as Hq; [by rw Hq Hat|].
    by rw /b' lookup_total_alter_ne. }
  exists x, y, b', g'. split; [done|]. split; [done|]. split; [done|].
  split; [done|]. split; [by rw /get_cell Hat|]. split; [by rw Hat|].
  split; [intros q Hq; by rw /b' lookup_total_alter_ne|].
  split; [by apply well_formed_alter|]. split.
  - rw !get_unsolved_count_coords.
    apply (length_filter_S _ _ _ (x, y)); [apply NoDup_iter_coords| |done|].
    + by apply elem_of_iter_coords.
    + intros q. rw Hval. case_decide as Hq; [|by intuition]. split; [by right|done].
  - apply extends_is_valid. intros x' y' v _ _. rw Hval. by case_decide.
Qed.

End Clear_random_cell.

Lemma clear_random_cell_effect_witness :
  (get_solved_cells two_ones_board = [] →
   clear_random_cell first_index tt two_ones_board = None)
  ∧ (get_solved_cells two_ones_board ≠ [] →
     ∃ x y b' g',
       clear_random_cell first_index tt two_ones_board = Some (b', g')
       ∧ x < 9 ∧ y < 9 ∧ get_cell two_ones_board x y ≠ None
       ∧ get_cell b' x y = None ∧ possibles (b' !!! (x, y)) = full_possibles
       ∧ (∀ q, q ≠ (x, y) → b' !!! q = two_ones_board !!! q)
       ∧ well_formed b' = true
       ∧ get_unsolved_count b' = S (get_unsolved_count two_ones_board)
       ∧ (is_valid two_ones_board = true → is_valid b' = true)).
Proof.
  apply clear_random_cell_effect.
  - intros g n Hn. exact Hn.
  - vm_compute. reflexivity.
Defined.
